(** * Arbitra-2: the bid synchronisation engine, embedded in Rocq

    The development follows the repository file by file:

    - [Js]             the JavaScript built-ins the sources lean on
                       (numbers, [trim], [split], [parseFloat], [toFixed]);
    - [Policy]         the capped-outbid policy of section 4.2 of the design
                       document, written from its words, to compare the
                       calculators against;
    - [BlurBidder]     the live Blur bidder script (calculateBidWithMargin,
                       processFromOpenSea, processFromBlur, submitNewBlurBid
                       and the start-up and polling loops of [main]);
    - [OperationQueue] [addToQueue] and [#processQueue] of BidManager, as a
                       state machine over enqueue and settle events;
    - [Services]       src/services/BidManager.js with src/models/NftBid.js
                       and the BidStorage ledger (calculators, submitBid,
                       cancelBid, clean-up);
    - [Legacy]         the amount calculator of the stand-alone report script
                       under old/;
    - [Scenarios]      concrete collaborators and states for the examples.

    The properties follow, one module per subject; the theorems named after
    a claim (C1 to C10) are the ones the claims rest on.

    Numbers.  A JavaScript number is an IEEE-754 double.  Prices are embedded
    as exact rationals ([Q]); [NaN] is the [None] of [option Q].  Rounding
    error of double arithmetic, the infinities, and the exponent notation
    that [toFixed] and [toString] switch to at magnitudes of 1e21 and above
    are outside the embedding.  JavaScript [===] on numbers is [Qeq_bool].

    Effects.  Every console line, API request and Redis write is appended to
    an explicit trace; the answers of the outside world (Blur API, signer,
    clock, file system) are oracles indexed by the attempt number, and
    [JSON.parse] is a collaborator too.  Redis commands are taken to
    succeed, and API answers to be well shaped.  An asynchronous function is
    cut at its [await]: the queue is a state machine whose events are the
    calls of [addToQueue] and the settling of the awaited operation. *)

From Stdlib Require Import QArith Qround Lqa ZArith List String Ascii Lia Bool.
From stdpp Require Import gmap strings list.
Import ListNotations.

Local Open Scope Z_scope.

(** ** JavaScript built-ins *)
Module Js.

(** White space and line terminators that [String.prototype.trim] strips,
    restricted to the one-byte code points. *)
Definition is_ws (c : ascii) : bool :=
  let n := Z.of_N (N_of_ascii c) in
  (n =? 9) || (n =? 10) || (n =? 11) || (n =? 12) || (n =? 13) || (n =? 32).

Fixpoint trimStart_l (s : list ascii) : list ascii :=
  match s with
  | c :: s' => if is_ws c then trimStart_l s' else s
  | [] => []
  end.

Definition trimEnd_l (s : list ascii) : list ascii :=
  rev (trimStart_l (rev s)).

Definition trim (s : string) : string :=
  string_of_list_ascii (trimEnd_l (trimStart_l (list_ascii_of_string s))).

(** [s.split(sep)] for a one-character separator. *)
Fixpoint split_l (sep : ascii) (cur : list ascii) (s : list ascii)
  : list (list ascii) :=
  match s with
  | [] => [rev cur]
  | c :: s' =>
      if Ascii.eqb c sep then rev cur :: split_l sep [] s'
      else split_l sep (c :: cur) s'
  end.

Definition split (sep : ascii) (s : string) : list string :=
  map string_of_list_ascii (split_l sep [] (list_ascii_of_string s)).

(** [key.split(":")[i]] spliced into a template string: a missing segment
    is [undefined] and prints as such. *)
Definition segment (i : nat) (key : string) : string :=
  nth i (split ":"%char key) "undefined"%string.

(** *** Decimal literals *)

Definition digit_of (c : ascii) : option Z :=
  let n := Z.of_N (N_of_ascii c) in
  if (48 <=? n) && (n <=? 57) then Some (n - 48) else None.

Definition is_digit (c : ascii) : bool :=
  match digit_of c with Some _ => true | None => false end.

(** Reads the longest run of digits: value, number of digits, rest. *)
Fixpoint read_digits (acc : Z) (cnt : nat) (s : list ascii)
  : Z * nat * list ascii :=
  match s with
  | c :: s' =>
      match digit_of c with
      | Some d => read_digits (10 * acc + d) (S cnt) s'
      | None => (acc, cnt, s)
      end
  | [] => (acc, cnt, s)
  end.

Definition pow10 (n : nat) : Q := inject_Z (10 ^ Z.of_nat n).

Definition read_sign (s : list ascii) : bool * list ascii :=
  match s with
  | "-"%char :: s' => (true, s')
  | "+"%char :: s' => (false, s')
  | _ => (false, s)
  end.

(** The optional exponent part; it is consumed only when digits follow. *)
Definition read_exponent (s : list ascii) : Z * list ascii :=
  match s with
  | c :: s' =>
      if Ascii.eqb c "e"%char || Ascii.eqb c "E"%char then
        let '(neg, s1) := read_sign s' in
        let '(e, n, rest) := read_digits 0 0 s1 in
        match n with
        | O => (0, s)
        | _ => ((if neg then - e else e), rest)
        end
      else (0, s)
  | [] => (0, s)
  end.

Definition scale10 (x : Q) (e : Z) : Q :=
  if e <? 0 then (x / pow10 (Z.to_nat (- e)))%Q
  else (x * pow10 (Z.to_nat e))%Q.

(** The longest prefix that is a StrDecimalLiteral
    ([sign] digits [. digits] [exponent]), with its value;
    [None] when there is none.  ([Infinity] is not modelled.) *)
Definition read_decimal (s : list ascii) : option (Q * list ascii) :=
  let '(neg, s0) := read_sign s in
  let '(i, ni, s1) := read_digits 0 0 s0 in
  let '(f, nf, s2) :=
    match s1 with
    | "."%char :: s1' =>
        let '(f, nf, r) := read_digits 0 0 s1' in
        match ni, nf with
        | O, O => (0, O, s1)
        | _, _ => (f, nf, r)
        end
    | _ => (0, O, s1)
    end in
  match ni, nf with
  | O, O => None
  | _, _ =>
      let m := (inject_Z i + inject_Z f / pow10 nf)%Q in
      let '(e, s3) := read_exponent s2 in
      let v := scale10 m e in
      Some ((if neg then - v else v)%Q, s3)
  end.

(** [parseFloat(s)]: leading white space is skipped, trailing text is
    ignored; [None] is NaN. *)
Definition parseFloat (s : string) : option Q :=
  match read_decimal (trimStart_l (list_ascii_of_string s)) with
  | Some (v, _) => Some v
  | None => None
  end.


(** [Math.floor]. *)
Definition Math_floor (x : Q) : Q := inject_Z (Qfloor x).

(** [Math.round]: to the nearest integer, ties towards plus infinity. *)
Definition Math_round (x : Q) : Q := inject_Z (Qfloor (x + (1 # 2))).

(** *** Rendering *)

Definition digit_char (d : Z) : ascii := ascii_of_N (Z.to_N (48 + d)).

(** Decimal digits of a natural number, most significant first. *)
Fixpoint to_digits (fuel : nat) (n : Z) (acc : list Z) : list Z :=
  match fuel with
  | O => n :: acc
  | S fuel' =>
      if n <? 10 then n :: acc
      else to_digits fuel' (n / 10) (n mod 10 :: acc)
  end.

Definition digits_of (n : Z) : list Z :=
  to_digits (Z.to_nat (Z.log2 n)) n [].

(** Left padding with zeros up to [k] digits. *)
Definition pad_zeros (k : nat) (ds : list Z) : list Z :=
  repeat 0 (k - length ds) ++ ds.

(** [x.toFixed(2)]: the integer nearest to [100 x] (ties away from zero),
    printed with at least three digits and a point before the last two. *)
Definition toFixed2 (x : Q) : string :=
  let neg := negb (Qle_bool 0 x) in
  let a := if neg then (- x)%Q else x in
  let n := Qfloor (a * 100 + (1 # 2)) in
  let ds := pad_zeros 3 (digits_of n) in
  let k := (length ds - 2)%nat in
  let body :=
    map digit_char (firstn k ds) ++ "."%char :: map digit_char (skipn k ds) in
  string_of_list_ascii (if neg then "-"%char :: body else body).

(** [Number::toString] for a number with at most twenty decimal places,
    as JavaScript prints it between 1e-7 and 1e21: no exponent, no
    trailing zero. *)
Fixpoint decimals_needed (fuel : nat) (x : Q) (k : nat) : nat :=
  match fuel with
  | O => k
  | S fuel' =>
      if Qeq_bool (inject_Z (Qfloor x)) x then k
      else decimals_needed fuel' (x * 10)%Q (S k)
  end.

Definition toString_decimal (n : option Q) : string :=
  match n with
  | None => "NaN"
  | Some x =>
      let neg := negb (Qle_bool 0 x) in
      let a := if neg then (- x)%Q else x in
      let k := decimals_needed 20 a 0 in
      let ds := pad_zeros (S k) (digits_of (Qfloor (a * pow10 k))) in
      let i := (length ds - k)%nat in
      let body :=
        map digit_char (firstn i ds)
        ++ match k with
           | O => []
           | _ => "."%char :: map digit_char (skipn i ds)
           end in
      string_of_list_ascii (if neg then "-"%char :: body else body)
  end.

(** Does the text end in a point and exactly two digits, after at least
    one digit? *)
Definition twoDecimals (s : string) : bool :=
  match rev (list_ascii_of_string s) with
  | d2 :: d1 :: "."%char :: i :: ip =>
      is_digit d2 && is_digit d1 && forallb is_digit (i :: ip)
  | _ => false
  end.


(** *** Digit strings and their values *)

Definition isDigit (d : Z) : Prop := 0 <= d <= 9.

(** The number a digit string denotes, continuing from [acc]. *)
Definition horner (acc : Z) (ds : list Z) : Z :=
  fold_left (fun a d => 10 * a + d) ds acc.

(** The text after a run of digits does not go on with a digit. *)
Definition stops (rest : list ascii) : Prop :=
  match rest with
  | [] => True
  | c :: _ => digit_of c = None
  end.

End Js.

(** ** The pricing policy of the design document (section 4.2) *)
Module Policy.




Local Open Scope Q_scope.


End Policy.

(** ** The Blur bidder script *)
Module BlurBidder.
Import Js.

Inductive Market := OpenSea | Blur.

(** The console lines, API requests and Redis writes of the script, in the
    order they happen. *)
Inductive Event :=
| LogFirstTime (m : Market) (contract raw : string)
| LogChanged (m : Market) (contract old new : string)
| CallProcess (m : Market) (contract raw : string)
| LogMalformed (m : Market) (contract : string)
| LogMarginTooLarge (m : Market) (contract : string)
| LogUnchanged (m : Market) (contract : string) (bid : Q)
| LogCancelOld (m : Market) (contract : string) (old : Q)
| LogNoPrior (m : Market) (contract : string) (bid : Q)
| PostFormat (contract amount : string)
| LogFormatFailed (contract : string)
| LogNoSignature (contract : string)
| LogSignFailed (contract : string)
| PostSubmit (contract amount signature : string)
| LogSubmitted (contract amount : string)
| RedisSet (key value : string)
| LogSaved (key value : string)
| LogSubmitFailed (contract : string).

(** One entry of [fmt.data.signatures]. *)
Record SigObj := {
  marketplace : string;
  signData : string;
  marketplaceData : string
}.

(** What the outside answers to one submission attempt: the format request
    ([None]: the POST throws), the signer ([None]: signing throws) and the
    submit request ([false]: the POST throws). *)
Record Responses := {
  format_response : option (list SigObj);
  sign_response : SigObj -> option string;
  submit_accepted : bool
}.

(** The collaborators of the script: the Blur API and signer, by attempt,
    and [JSON.parse] followed by a property path, giving the text of the
    field ([None] when parsing or the access throws, or the field is
    missing). *)
Class World := {
  respond : nat -> Responses;
  json_text : list string -> string -> option string
}.

Record State := {
  redis : gmap string string;
  lastSeenOpenSea : gmap string string;
  lastSeenBlur : gmap string string;
  attempts : nat;
  trace : list Event
}.

Definition emit (e : Event) (st : State) : State :=
  {| redis := redis st; lastSeenOpenSea := lastSeenOpenSea st;
     lastSeenBlur := lastSeenBlur st; attempts := attempts st;
     trace := trace st ++ [e] |}.

Definition redis_set (k v : string) (st : State) : State :=
  {| redis := <[k := v]> (redis st); lastSeenOpenSea := lastSeenOpenSea st;
     lastSeenBlur := lastSeenBlur st; attempts := attempts st;
     trace := trace st ++ [RedisSet k v] |}.

Definition next_attempt (st : State) : State :=
  {| redis := redis st; lastSeenOpenSea := lastSeenOpenSea st;
     lastSeenBlur := lastSeenBlur st; attempts := S (attempts st);
     trace := trace st |}.

Definition set_lastSeen (m : Market) (contract raw : string) (st : State)
  : State :=
  match m with
  | OpenSea =>
      {| redis := redis st;
         lastSeenOpenSea := <[contract := raw]> (lastSeenOpenSea st);
         lastSeenBlur := lastSeenBlur st; attempts := attempts st;
         trace := trace st |}
  | Blur =>
      {| redis := redis st; lastSeenOpenSea := lastSeenOpenSea st;
         lastSeenBlur := <[contract := raw]> (lastSeenBlur st);
         attempts := attempts st; trace := trace st |}
  end.

Definition lastSeen (m : Market) (st : State) : gmap string string :=
  match m with
  | OpenSea => lastSeenOpenSea st
  | Blur => lastSeenBlur st
  end.

Definition PROFIT_MARGIN : Q := 0.005%Q.

(** [calculateBidWithMargin]: two-decimal precision, floored; 0 stands for
    "no bid". *)
Definition calculateBidWithMargin (observedEth : Q) : Q :=
  let raw := (observedEth - PROFIT_MARGIN)%Q in
  if Qle_bool raw 0 then 0%Q
  else (Math_floor (raw * 100) / 100)%Q.

Definition bidKey (contract : string) : string :=
  ("Bid:Blur:" ++ contract)%string.

Section WithWorld.
Context `{World}.

(** [submitNewBlurBid]: format, sign, submit; Redis is written in step 6,
    after the submit request has returned. *)
Definition submitNewBlurBid (contract : string) (bidEth : Q) (st : State)
  : State :=
  let amount := toFixed2 bidEth in
  let r := respond (attempts st) in
  let st := emit (PostFormat contract amount) (next_attempt st) in
  match format_response r with
  | None => emit (LogFormatFailed contract) st
  | Some signatures =>
      match List.find (fun s => String.eqb (marketplace s) "BLUR")
              signatures with
      | None => emit (LogNoSignature contract) st
      | Some sigObj =>
          match sign_response r sigObj with
          | None => emit (LogSignFailed contract) st
          | Some signature =>
              let st := emit (PostSubmit contract amount signature) st in
              if submit_accepted r then
                emit (LogSaved (bidKey contract) amount)
                  (redis_set (bidKey contract) amount
                     (emit (LogSubmitted contract amount) st))
              else emit (LogSubmitFailed contract) st
          end
      end
  end.

(** [oldBidRaw ? parseFloat(oldBidRaw) : null]; every use of the result
    tests [!== null && !isNaN] together, so null and NaN are both
    [None]. *)
Definition oldBidVal (contract : string) (st : State) : option Q :=
  match redis st !! bidKey contract with
  | Some oldBidRaw =>
      if String.eqb oldBidRaw "" then None else parseFloat oldBidRaw
  | None => None
  end.

(** The common tail of [processFromOpenSea] and [processFromBlur], from
    step 1 on. *)
Definition rebid (m : Market) (contract : string) (observed : Q)
  (st : State) : State :=
  let bidEth := calculateBidWithMargin observed in
  if Qle_bool bidEth 0 then emit (LogMarginTooLarge m contract) st
  else
    match oldBidVal contract st with
    | Some old =>
        if Qeq_bool old bidEth then emit (LogUnchanged m contract bidEth) st
        else submitNewBlurBid contract bidEth
               (emit (LogCancelOld m contract old) st)
    | None =>
        submitNewBlurBid contract bidEth
          (emit (LogNoPrior m contract bidEth) st)
    end.

Definition osOfferEth (rawJson : string) : option Q :=
  match json_text ["price_per_nft"; "readable"]%string rawJson with
  | Some readable => parseFloat readable
  | None => None
  end.

Definition processFromOpenSea (contract rawJson : string) (st : State)
  : State :=
  let st := emit (CallProcess OpenSea contract rawJson) st in
  match osOfferEth rawJson with
  | None => emit (LogMalformed OpenSea contract) st
  | Some price => rebid OpenSea contract price st
  end.

Definition startsWith (p : ascii) (s : string) : bool :=
  match s with
  | String c _ => Ascii.eqb c p
  | EmptyString => false
  end.

Definition blurBestPrice (rawString : string) : option Q :=
  if startsWith "{"%char (trim rawString) then
    match json_text ["bestPrice"]%string rawString with
    | Some bestPrice => parseFloat bestPrice
    | None => None
    end
  else parseFloat rawString.

Definition processFromBlur (contract rawString : string) (st : State)
  : State :=
  let st := emit (CallProcess Blur contract rawString) st in
  match blurBestPrice rawString with
  | None => emit (LogMalformed Blur contract) st
  | Some price => rebid Blur contract price st
  end.

Definition process (m : Market) : string -> string -> State -> State :=
  match m with
  | OpenSea => processFromOpenSea
  | Blur => processFromBlur
  end.

(** Position of the contract in a key: ["c-offer:opensea:<contract>"],
    ["c-offer:blur:collection:<contract>"]. *)
Definition contractOf (m : Market) (key : string) : string :=
  match m with
  | OpenSea => segment 2 key
  | Blur => segment 3 key
  end.


(** One iteration of a loop of the polling callback. *)
Definition pollKey (m : Market) (key : string) (st : State) : State :=
  let contract := contractOf m key in
  match redis st !! key with
  | None => st
  | Some raw =>
      if String.eqb raw "" then st
      else
        let rawTrim := trim raw in
        match lastSeen m st !! contract with
        | None =>
            process m contract rawTrim
              (set_lastSeen m contract rawTrim
                 (emit (LogFirstTime m contract rawTrim) st))
        | Some prevRaw =>
            if String.eqb prevRaw rawTrim then st
            else
              process m contract rawTrim
                (set_lastSeen m contract rawTrim
                   (emit (LogChanged m contract prevRaw rawTrim) st))
        end
  end.

Definition forKeys (body : string -> State -> State) (keys : list string)
  (st : State) : State :=
  fold_left (fun st key => body key st) keys st.


(** One run of the [setInterval] callback. *)
Definition pollTick (osKeys blurKeys : list string) (st : State) : State :=
  forKeys (pollKey Blur) blurKeys (forKeys (pollKey OpenSea) osKeys st).

End WithWorld.

(** *** What a trace shows *)

Local Open Scope Q_scope.

(** The signature obtained when format, extraction and signing succeed. *)
Definition signedPayload (r : Responses) : option string :=
  match format_response r with
  | None => None
  | Some signatures =>
      match List.find (fun s => String.eqb (marketplace s) "BLUR")
              signatures with
      | None => None
      | Some sigObj => sign_response r sigObj
      end
  end.

(** Format, signature extraction, signing and submit all succeed. *)
Definition allStepsSucceed (r : Responses) : bool :=
  match signedPayload r with
  | Some _ => submit_accepted r
  | None => false
  end.

Definition isRedisSet (e : Event) : bool :=
  match e with RedisSet _ _ => true | _ => false end.

Definition isCancel (e : Event) : bool :=
  match e with LogCancelOld _ _ _ => true | _ => false end.

(** The change events acted upon: the calls of [processFromOpenSea] and
    [processFromBlur] recorded in a trace, in order. *)
Definition calls (t : list Event) : list (Market * string * string) :=
  flat_map (fun e => match e with
                     | CallProcess m contract raw => [(m, contract, raw)]
                     | _ => []
                     end) t.


(** Nothing new under a key: it is gone, its value is empty, or its trimmed
    value is the cached one. *)
Definition quiet (m : Market) (st : State) (key : string) : Prop :=
  match redis st !! key with
  | None => True
  | Some raw =>
      raw = ""%string \/ lastSeen m st !! contractOf m key = Some (trim raw)
  end.


End BlurBidder.

(** ** The operation queue of BidManager ([addToQueue], [#processQueue]) *)
Module OperationQueue.
Section Queue.
(** [Op]: the queued closures; [W]: everything they act on.
    [exec op w] is the body of [op] run to completion on [w]: whether it
    returned ([true]) or threw ([false]), and the state it left. *)
Context {Op W : Type}.
Variable exec : Op -> W -> bool * W.

(** [bidQueue] and [processingQueue] are the private fields of the class.
    [inFlight] holds the operations whose promise is being awaited;
    [started], [settled] and [errorLog] (the [logger.error] lines of the
    catch block) record the history. *)
Record T := {
  bidQueue : list Op;
  processingQueue : bool;
  inFlight : list Op;
  started : list Op;
  settled : list (Op * bool);
  errorLog : list Op;
  world : W
}.

Definition init (w : W) : T :=
  {| bidQueue := []; processingQueue := false; inFlight := [];
     started := []; settled := []; errorLog := []; world := w |}.

(** [#processQueue] up to its [await operation()]. *)
Definition processQueue (s : T) : T :=
  match bidQueue s with
  | [] =>
      {| bidQueue := []; processingQueue := false; inFlight := inFlight s;
         started := started s; settled := settled s;
         errorLog := errorLog s; world := world s |}
  | operation :: rest =>
      {| bidQueue := rest; processingQueue := true;
         inFlight := inFlight s ++ [operation];
         started := started s ++ [operation]; settled := settled s;
         errorLog := errorLog s; world := world s |}
  end.

(** [addToQueue]: push, and start draining unless a drain is under way. *)
Definition addToQueue (operation : Op) (s : T) : T :=
  let s :=
    {| bidQueue := bidQueue s ++ [operation];
       processingQueue := processingQueue s; inFlight := inFlight s;
       started := started s; settled := settled s;
       errorLog := errorLog s; world := world s |} in
  if processingQueue s then s else processQueue s.

(** [#processQueue] from the point where the awaited operation settles:
    the catch block logs a rejection, then the function calls itself. *)
Definition resume (s : T) : T :=
  match inFlight s with
  | [] => s
  | operation :: others =>
      let '(ok, w) := exec operation (world s) in
      processQueue
        {| bidQueue := bidQueue s; processingQueue := processingQueue s;
           inFlight := others; started := started s;
           settled := settled s ++ [(operation, ok)];
           errorLog := if ok then errorLog s else errorLog s ++ [operation];
           world := w |}
  end.

(** What can happen to the queue: a caller enqueues, or the awaited
    operation settles. *)
Inductive Event :=
  | Enqueue (operation : Op)
  | Settle.

Definition step (s : T) (e : Event) : T :=
  match e with
  | Enqueue operation => addToQueue operation s
  | Settle => resume s
  end.

Definition run (evs : list Event) (s : T) : T := fold_left step evs s.

Definition enqueued (evs : list Event) : list Op :=
  flat_map (fun e => match e with Enqueue o => [o] | Settle => [] end) evs.

(** Draining with no further enqueue: every pending operation settles. *)
Definition drain (s : T) : T :=
  run (repeat Settle (length (inFlight s) + length (bidQueue s))) s.

(** The operations that threw, in the order they settled. *)
Definition thrown (l : list (Op * bool)) : list Op :=
  map fst (List.filter (fun x => negb (snd x)) l).

(** What holds of the queue between any two events, [enq] being the
    operations enqueued so far. *)
Record Inv (enq : list Op) (s : T) : Prop := {
  inv_fifo : started s ++ bidQueue s = enq;
  inv_serial : started s = map fst (settled s) ++ inFlight s;
  inv_errors : errorLog s = thrown (settled s);
  inv_flag :
    if processingQueue s then length (inFlight s) = 1%nat
    else inFlight s = [] /\ bidQueue s = []
}.

End Queue.
End OperationQueue.

(** ** BidManager, NftBid and BidStorage *)
Module Services.
Import Js.

Inductive Platform := blur | opensea.
Inductive Status := pending | active | cancelled | invalid.

Definition Platform_eqb (a b : Platform) : bool :=
  match a, b with
  | blur, blur | opensea, opensea => true
  | _, _ => false
  end.

Definition Status_eqb (a b : Status) : bool :=
  match a, b with
  | pending, pending | active, active
  | cancelled, cancelled | invalid, invalid => true
  | _, _ => false
  end.

(** [config.bid.<platform>]: every value is a string (an environment
    variable or a quoted default). *)
Record BidSettings := {
  minBidAmount : string;
  maxBidAmount : string;
  bidDeduction : string;
  gasCost : string
}.

Record Config := {
  bid_blur : BidSettings;
  bid_opensea : BidSettings;
  opensea_outbidAmount : string
}.

Definition bid (c : Config) (p : Platform) : BidSettings :=
  match p with
  | blur => bid_blur c
  | opensea => bid_opensea c
  end.

(** The defaults of src/config/config.js. *)
Definition defaultConfig : Config :=
  {| bid_blur := {| minBidAmount := "0.01"; maxBidAmount := "100";
                    bidDeduction := "0.005"; gasCost := "0.001" |};
     bid_opensea := {| minBidAmount := "0.01"; maxBidAmount := "100";
                       bidDeduction := "0.005"; gasCost := "0.001" |};
     opensea_outbidAmount := "0.00001" |}.

(** What one operation meets outside the process: the clock
    ([Date.now()], in milliseconds), the random nonce, whether the
    marketplace accepted the submission, and whether writing data/bids.json
    succeeded. *)
Record Answers := {
  now : Z;
  randomNonce : string;
  platformAccepts : bool;
  fileWritten : bool
}.

(** The host: configuration, [ethers.isAddress], [Number::toString] and
    the answers by operation number. *)
Class Host := {
  config : Config;
  isAddress : string -> bool;
  Number_toString : option Q -> string;
  answers : nat -> Answers
}.

Record NftBid := {
  collection : string;
  platform : Platform;
  amount : Q;
  tokenId : option string;
  expirationTime : Z;
  nonce : string;
  signature : option string;
  createdAt : Z;
  status : Status
}.

(** The fields of a bid as they are stored in data/bids.json. *)
Record BidJSON := {
  j_collection : string;
  j_platform : Platform;
  j_amount : Q;
  j_tokenId : option string;
  j_expirationTime : option Z;
  j_nonce : option string;
  j_signature : option string;
  j_createdAt : Z;
  j_status : Status
}.

Definition seconds (ms : Z) : Z := ms / 1000.

(** The constructor: whatever it is given, the bid starts as pending. *)
Definition newNftBid (a : Answers) (d : BidJSON) : NftBid :=
  {| collection := j_collection d;
     platform := j_platform d;
     amount := j_amount d;
     tokenId := j_tokenId d;
     expirationTime :=
       match j_expirationTime d with
       | Some t => if t =? 0 then seconds (now a) + 86400 else t
       | None => seconds (now a) + 86400
       end;
     nonce :=
       match j_nonce d with
       | Some n => if String.eqb n "" then randomNonce a else n
       | None => randomNonce a
       end;
     signature := j_signature d;
     createdAt := now a;
     status := pending |}.

Definition fromJSON (a : Answers) (d : BidJSON) : NftBid := newNftBid a d.

Definition freshBid (a : Answers) (c : string) (p : Platform) (amt : Q)
  : NftBid :=
  newNftBid a
    {| j_collection := c; j_platform := p; j_amount := amt;
       j_tokenId := None; j_expirationTime := None; j_nonce := None;
       j_signature := None; j_createdAt := 0; j_status := pending |}.

Definition with_amount (b : NftBid) (amt : Q) : NftBid :=
  {| collection := collection b; platform := platform b; amount := amt;
     tokenId := tokenId b; expirationTime := expirationTime b;
     nonce := nonce b; signature := signature b; createdAt := createdAt b;
     status := status b |}.

(** A comparison with NaN is false. *)
Definition lt_num (x : Q) (y : option Q) : bool :=
  match y with
  | Some y => negb (Qle_bool y x)
  | None => false
  end.

Definition gt_num (x : Q) (y : option Q) : bool :=
  match y with
  | Some y => negb (Qle_bool x y)
  | None => false
  end.

Record CollectionBids := {
  blurBids : list NftBid;
  openseaBids : list NftBid
}.

Definition platformBids (cb : CollectionBids) (p : Platform) : list NftBid :=
  match p with
  | blur => blurBids cb
  | opensea => openseaBids cb
  end.

Definition setPlatformBids (cb : CollectionBids) (p : Platform)
  (l : list NftBid) : CollectionBids :=
  match p with
  | blur => {| blurBids := l; openseaBids := openseaBids cb |}
  | opensea => {| blurBids := blurBids cb; openseaBids := l |}
  end.

(** The ledger ([BidStorage.bids]) and the number of operations run. *)
Record Ledger := {
  bids : gmap string CollectionBids;
  opCount : nat
}.

Definition emptyLedger : Ledger := {| bids := ∅; opCount := 0 |}.

Definition setBids (l : Ledger) (m : gmap string CollectionBids) : Ledger :=
  {| bids := m; opCount := opCount l |}.

Definition getBids (l : Ledger) (c : string) (p : Platform) : list NftBid :=
  match bids l !! c with
  | None => []
  | Some cb => platformBids cb p
  end.

Definition isActiveAt (t : Z) (b : NftBid) : bool :=
  Status_eqb (status b) active && (t <? expirationTime b).

Definition getActiveBids (a : Answers) (l : Ledger) (c : string)
  (p : Platform) : list NftBid :=
  List.filter (isActiveAt (seconds (now a))) (getBids l c p).

Fixpoint findIndex (n : string) (l : list NftBid) : option nat :=
  match l with
  | [] => None
  | b :: l' =>
      if String.eqb (nonce b) n then Some O
      else option_map S (findIndex n l')
  end.

(** [existingBids[0].amount = amount]: the object is the one stored in the
    ledger, so the first active bid of the list changes in place. *)
Fixpoint assignAmountFirstActive (t : Z) (amt : Q) (l : list NftBid)
  : list NftBid :=
  match l with
  | [] => []
  | b :: l' =>
      if isActiveAt t b then with_amount b amt :: l'
      else b :: assignAmountFirstActive t amt l'
  end.

(** An operation as BidManager queues it: the closure of [submitBid] or of
    [cancelBid], with the arguments it captured. *)
Inductive Operation :=
| SubmitBid (p : Platform) (c : string) (amt : Q)
| CancelBid (p : Platform) (c : string) (n : string).

Section WithHost.
Context `{Host}.

(** [NftBid.validate]: [true] when nothing is thrown. *)
Definition validate (a : Answers) (b : NftBid) : bool :=
  isAddress (collection b)
  && negb (Qle_bool (amount b) 0)
  && negb (lt_num (amount b)
             (parseFloat (minBidAmount (bid config (platform b))))
           || gt_num (amount b)
                (parseFloat (maxBidAmount (bid config (platform b)))))
  && negb (expirationTime b <=? seconds (now a)).

(** [addBid]: validate, push, [saveBids]. The entry is in memory before
    the file is written. *)
Definition addBid (a : Answers) (b : NftBid) (l : Ledger) : bool * Ledger :=
  if validate a b then
    let cb :=
      match bids l !! collection b with
      | Some cb => cb
      | None => {| blurBids := []; openseaBids := [] |}
      end in
    let cb := setPlatformBids cb (platform b)
                (platformBids cb (platform b) ++ [b]) in
    (fileWritten a, setBids l (<[collection b := cb]> (bids l)))
  else (false, l).

Definition updateBid (a : Answers) (b : NftBid) (l : Ledger)
  : bool * Ledger :=
  if validate a b then
    match bids l !! collection b with
    | None => (false, l)
    | Some cb =>
        match findIndex (nonce b) (platformBids cb (platform b)) with
        | None => (false, l)
        | Some index =>
            let cb := setPlatformBids cb (platform b)
                        (<[index := b]> (platformBids cb (platform b))) in
            (fileWritten a, setBids l (<[collection b := cb]> (bids l)))
        end
    end
  else (false, l).

Definition removeBid (a : Answers) (c : string) (p : Platform) (n : string)
  (l : Ledger) : bool * Ledger :=
  match bids l !! c with
  | None => (false, l)
  | Some cb =>
      match findIndex n (platformBids cb p) with
      | None => (false, l)
      | Some index =>
          let cb := setPlatformBids cb p (delete index (platformBids cb p)) in
          (fileWritten a, setBids l (<[c := cb]> (bids l)))
      end
  end.

(** [loadBids]: every stored bid goes through the constructor again. *)
Definition loadBids (a : Answers)
  (file : gmap string (list BidJSON * list BidJSON)) : Ledger :=
  {| bids :=
       (fun platforms =>
          {| blurBids := map (fromJSON a) (fst platforms);
             openseaBids := map (fromJSON a) (snd platforms) |}) <$> file;
     opCount := 0 |}.

(** [cleanupExpiredBids], run every hour beside the queue. *)
Definition keepBid (t : Z) (b : NftBid) : bool :=
  (t <? expirationTime b) && negb (Status_eqb (status b) cancelled).

Definition cleanupExpiredBids (t : Z) (l : Ledger) : Ledger :=
  setBids l
    ((fun cb =>
        {| blurBids := List.filter (keepBid t) (blurBids cb);
           openseaBids := List.filter (keepBid t) (openseaBids cb) |})
       <$> bids l).

(** The body of the closure queued by [submitBid]. *)
Definition submitOperation (a : Answers) (p : Platform) (c : string)
  (amt : Q) (l : Ledger) : bool * Ledger :=
  let b := freshBid a c p amt in
  match getActiveBids a l c p with
  | existingBid :: _ =>
      if Qeq_bool (amount existingBid) amt then (true, l)
      else
        let l :=
          match bids l !! c with
          | Some cb =>
              setBids l
                (<[c := setPlatformBids cb p
                          (assignAmountFirstActive (seconds (now a)) amt
                             (platformBids cb p))]> (bids l))
          | None => l
          end in
        updateBid a (with_amount existingBid amt) l
  | [] =>
      if platformAccepts a then addBid a b l else (false, l)
  end.

(** The body of the closure queued by [cancelBid]; the platform calls
    are empty stubs. *)
Definition cancelOperation (a : Answers) (p : Platform) (c : string)
  (n : string) (l : Ledger) : bool * Ledger :=
  removeBid a c p n l.

Definition exec (o : Operation) (l : Ledger) : bool * Ledger :=
  let a := answers (opCount l) in
  let l := {| bids := bids l; opCount := S (opCount l) |} in
  match o with
  | SubmitBid p c amt => submitOperation a p c amt l
  | CancelBid p c n => cancelOperation a p c n l
  end.




(** The ledgers the service can hold: loaded from the file, then changed
    by queued operations and by the hourly clean-up. *)
Inductive reachable : Ledger -> Prop :=
| reach_load a file : reachable (loadBids a file)
| reach_exec o l : reachable l -> reachable (snd (exec o l))
| reach_cleanup t l : reachable l -> reachable (cleanupExpiredBids t l).

End WithHost.

(** Bids of a key that are neither cancelled nor invalid. *)
Definition nonTerminal (b : NftBid) : bool :=
  Status_eqb (status b) pending || Status_eqb (status b) active.

Definition liveBids (l : Ledger) (c : string) (p : Platform) : list NftBid :=
  List.filter nonTerminal (getBids l c p).

Definition allPending (l : list NftBid) : Prop :=
  Forall (fun b => status b = pending) l.

(** Every stored bid is pending. *)
Definition AllPending (l : Ledger) : Prop :=
  forall c cb, bids l !! c = Some cb ->
               allPending (blurBids cb) /\ allPending (openseaBids cb).

End Services.

(** ** The stand-alone OpenSea amount report (old/) *)
Module Legacy.
Import Js.

(** [computeBidAmount(blurBid, osBid, profitMargin, minIncrement)]: the cap
    or the minimal outbid, rounded to the nearest 0.00001; [None] when it
    throws because the cap is not positive. *)
Definition computeBidAmount (blurBid osBid profitMargin minIncrement : Q)
  : option Q :=
  let maxBid := (blurBid - profitMargin)%Q in
  if Qle_bool maxBid 0 then None
  else if Qle_bool maxBid osBid then
    Some (Math_round (maxBid * 100000) / 100000)%Q
  else
    let bumped := (osBid + minIncrement)%Q in
    Some (Math_round (bumped * 100000) / 100000)%Q.

End Legacy.

(** ** Concrete collaborators for the scenarios *)
Module Scenarios.
Import Js.

Definition quote : string := String "034"%char EmptyString.
Definition quoted (s : string) : string := (quote ++ s ++ quote)%string.

(** Text after the first occurrence of [pat] in [s]. *)
Fixpoint after (pat s : string) : option string :=
  if String.prefix pat s then
    Some (String.substring (String.length pat)
            (String.length s - String.length pat) s)
  else
    match s with
    | EmptyString => None
    | String _ s' => after pat s'
    end.

Fixpoint upto (stop : ascii) (s : string) : string :=
  match s with
  | EmptyString => EmptyString
  | String c s' =>
      if Ascii.eqb c stop then EmptyString else String c (upto stop s')
  end.

(** A reader for the flat objects the feeds write: the string value of
    the last name of the path, found by its quoted name. It stands for
    [JSON.parse] and the property access in the scenarios. *)
Definition flatField (path : list string) (raw : string) : option string :=
  match after (quoted (List.last path EmptyString) ++ ":" ++ quote) raw with
  | Some rest => Some (upto "034"%char rest)
  | None => None
  end.

Definition blurSig : BlurBidder.SigObj :=
  {| BlurBidder.marketplace := "BLUR";
     BlurBidder.signData := "typed-data";
     BlurBidder.marketplaceData := "side-data" |}.

(** Every step of the submission answers. *)
Definition accepting : BlurBidder.Responses :=
  {| BlurBidder.format_response := Some [blurSig];
     BlurBidder.sign_response := fun _ => Some "0xsignature"%string;
     BlurBidder.submit_accepted := true |}.

(** The format request throws. *)
Definition formatDown : BlurBidder.Responses :=
  {| BlurBidder.format_response := None;
     BlurBidder.sign_response := fun _ => Some "0xsignature"%string;
     BlurBidder.submit_accepted := true |}.

Definition friendlyWorld : BlurBidder.World :=
  {| BlurBidder.respond := fun _ => accepting;
     BlurBidder.json_text := flatField |}.

Definition formatDownWorld : BlurBidder.World :=
  {| BlurBidder.respond := fun _ => formatDown;
     BlurBidder.json_text := flatField |}.

Definition startState (r : gmap string string) : BlurBidder.State :=
  {| BlurBidder.redis := r; BlurBidder.lastSeenOpenSea := ∅;
     BlurBidder.lastSeenBlur := ∅; BlurBidder.attempts := 0;
     BlurBidder.trace := [] |}.

(** The OpenSea feed value [{"price_per_nft":{"readable":"<eth>"}}]. *)
Definition osOffer (eth : string) : string :=
  ("{" ++ quoted "price_per_nft" ++ ":{" ++ quoted "readable" ++ ":"
   ++ quoted eth ++ "}}")%string.

Definition isLowerHex (c : ascii) : bool :=
  let n := Z.of_N (N_of_ascii c) in
  ((48 <=? n) && (n <=? 57)) || ((97 <=? n) && (n <=? 102)).

(** Addresses that [ethers.isAddress] accepts without a checksum: 0x and
    forty lower-case hexadecimal digits. *)
Definition isPlainAddress (s : string) : bool :=
  match list_ascii_of_string s with
  | "0"%char :: "x"%char :: h =>
      (length h =? 40)%nat && forallb isLowerHex h
  | _ => false
  end.

(** A host on which every outside call succeeds, at a fixed clock. *)
Definition friendlyHost : Services.Host :=
  {| Services.config := Services.defaultConfig;
     Services.isAddress := isPlainAddress;
     Services.Number_toString := toString_decimal;
     Services.answers := fun n =>
       {| Services.now := 1750000000000;
          Services.randomNonce := String (ascii_of_nat (48 + n)) "nonce";
          Services.platformAccepts := true;
          Services.fileWritten := true |} |}.

Definition collectionA : string :=
  "0xb6a37b5d14d502c3ab0ae6f3a0e058bc9517786e".

(** A queue of numbered operations that log themselves; the odd ones
    throw. *)
Definition oddThrows (o : nat) (w : list nat) : bool * list nat :=
  (Nat.even o, w ++ [o]).


Definition blurKeyA : string := "c-offer:blur:collection:0xabc".

(** Blur reported 0.18 before; the cache holds it. *)
Definition seenBlurAt (fetched : string) : BlurBidder.State :=
  {| BlurBidder.redis := {[ blurKeyA := fetched ]};
     BlurBidder.lastSeenOpenSea := ∅;
     BlurBidder.lastSeenBlur := {[ "0xabc"%string := "0.18"%string ]};
     BlurBidder.attempts := 0; BlurBidder.trace := [] |}.

End Scenarios.

(** ** What a polling run may change *)
Module BidderFrame.
Import Js BlurBidder.

(** Between two states every Redis key holds what it held, or it is the bid
    key of a contract and holds a text with two decimals. *)
Definition onlyBidsWritten (st st' : State) : Prop :=
  forall k,
    redis st' !! k = redis st !! k \/
    exists contract v,
      k = bidKey contract /\ redis st' !! k = Some v /\ twoDecimals v = true.

(** The price a processing function reads from a feed value. *)
Definition observedPrice `{World} (m : Market) (raw : string) : option Q :=
  match m with
  | OpenSea => osOfferEth raw
  | Blur => blurBestPrice raw
  end.

(** Submission attempts made between two states: none is lost, and there
    are at most as many as changes acted upon. *)
Definition attemptsWithinCalls (st st' : State) : Prop :=
  (attempts st <= attempts st')%nat /\
  (attempts st' + length (calls (trace st))
   <= attempts st + length (calls (trace st')))%nat.

End BidderFrame.

(** ** Running operations one after another *)
Module Sequential.
Section Sequential.
Context {Op W : Type}.
Variable exec : Op -> W -> bool * W.

(** The operations run in order, each to completion before the next: their
    outcomes and the state they leave. *)
Definition runInOrder (ops : list Op) (w : W) : list (Op * bool) * W :=
  fold_left
    (fun acc o =>
       let '(ok, w') := exec o (snd acc) in (fst acc ++ [(o, ok)], w'))
    ops ([], w).

End Sequential.
End Sequential.

(** ** Saving and reloading the ledger *)
Module Persistence.
Import Js Services.

(** [NftBid.toJSON]. *)
Definition toJSON (b : NftBid) : BidJSON :=
  {| j_collection := collection b;
     j_platform := platform b;
     j_amount := amount b;
     j_tokenId := tokenId b;
     j_expirationTime := Some (expirationTime b);
     j_nonce := Some (nonce b);
     j_signature := signature b;
     j_createdAt := createdAt b;
     j_status := status b |}.

(** [saveBids]: the object written to data/bids.json.  [JSON.stringify]
    followed by [JSON.parse] is taken to give the same object back. *)
Definition saveBids (l : Ledger) : gmap string (list BidJSON * list BidJSON) :=
  (fun cb => (map toJSON (blurBids cb), map toJSON (openseaBids cb)))
    <$> bids l.

(** What a bid [b] comes back as, [b'], when it is saved and loaded at the
    time of [a]. *)
Definition reloadedAs (a : Answers) (b b' : NftBid) : Prop :=
  collection b' = collection b /\ platform b' = platform b /\
  amount b' = amount b /\ tokenId b' = tokenId b /\
  signature b' = signature b /\
  status b' = pending /\ createdAt b' = now a /\
  (expirationTime b <> 0 -> expirationTime b' = expirationTime b) /\
  (nonce b <> ""%string -> nonce b' = nonce b).


(** Two ledgers list the same bids under every key. *)
Definition sameBids (l l' : Ledger) : Prop :=
  forall c p, getBids l' c p = getBids l c p.

End Persistence.

(** ** src/services/TaskManager.js

    One loop of [processTasks] runs, started by [initialize].  The handlers
    only log, and the listeners of the emitted events are taken not to
    throw.  The loop is cut where it awaits: a turn runs up to the [await]
    of a handler, the rest of [executeTask] runs when the handler has
    returned, and calls of [addTask] may come in between. *)
Module TaskManager.
Local Open Scope Z_scope.

Inductive Status := pending | running | completed | failed.

(** A task object.  [id] is [Date.now().toString()]: the decimal text of
    the clock reading, kept here as the reading itself, since distinct
    integers have distinct texts.  [data] is only ever logged. *)
Record Task := {
  id : Z;
  type : string;
  data : string;
  priority : Z;
  status : Status;
  createdAt : Z;
  error : option string
}.

Definition with_status (t : Task) (s : Status) : Task :=
  {| id := id t; type := type t; data := data t; priority := priority t;
     status := s; createdAt := createdAt t; error := error t |}.

(** The task after the [catch] of [executeTask]. *)
Definition failedWith (message : string) (t : Task) : Task :=
  {| id := id t; type := type t; data := data t; priority := priority t;
     status := failed; createdAt := createdAt t; error := Some message |}.

Definition isPending (t : Task) : bool :=
  match status t with pending => true | _ => false end.

Definition RECALCULATE : Z := 4.

(** The [case] labels of [executeTask]. *)
Definition handled (ty : string) : bool :=
  String.eqb ty "ACCEPT_OFFER" || String.eqb ty "SUBMIT_BID"
  || String.eqb ty "CANCEL_BID" || String.eqb ty "RECALCULATE".

Definition unknownType (ty : string) : string :=
  ("Unknown task type: " ++ ty)%string.

(** What the manager emits, with the task as it is at that moment. *)
Inductive Emitted :=
| taskAdded (t : Task)
| taskStarted (t : Task)
| taskCompleted (t : Task)
| taskFailed (t : Task).

(** [this.tasks] is a [Map]: its entries in insertion order, one per key.
    [current] is the task whose handler [executeTask] is awaiting, if any;
    the loop of [processTasks] does nothing else meanwhile. *)
Record T := {
  tasks : list Task;
  current : option Task;
  emitted : list Emitted
}.

Definition init : T := {| tasks := []; current := None; emitted := [] |}.

(** [Map.prototype.set]: an existing key keeps its place. *)
Fixpoint Map_set (t : Task) (m : list Task) : list Task :=
  match m with
  | [] => [t]
  | x :: m' => if id x =? id t then t :: m' else x :: Map_set t m'
  end.

(** [Map.prototype.delete]. *)
Definition Map_delete (k : Z) (m : list Task) : list Task :=
  List.filter (fun x => negb (id x =? k)) m.

(** An assignment to a field of the task object stored under key [k]. *)
Definition update (k : Z) (f : Task -> Task) (m : list Task) : list Task :=
  map (fun x => if id x =? k then f x else x) m.

(** [addTask]; its two clock readings are [idClock] and [createdClock]. *)
Definition addTask (idClock createdClock : Z) (ty d : string)
  (prio : option Z) (s : T) : T :=
  let task :=
    {| id := idClock; type := ty; data := d;
       priority := default RECALCULATE prio; status := pending;
       createdAt := createdClock; error := None |} in
  {| tasks := Map_set task (tasks s);
     current := current s;
     emitted := emitted s ++ [taskAdded task] |}.

Definition getAllTasks (s : T) : list Task := tasks s.

Definition getPendingTasks (s : T) : list Task :=
  List.filter isPending (tasks s).

Definition getTaskStatus (k : Z) (s : T) : option Status :=
  status <$> List.find (fun x => id x =? k) (tasks s).

(** [Array.prototype.sort] with [(a, b) => a.priority - b.priority]: the
    sort is stable, which fixes its result; insertion gives that result. *)
Fixpoint insert (t : Task) (l : list Task) : list Task :=
  match l with
  | [] => [t]
  | x :: l' =>
      if priority t <=? priority x then t :: x :: l' else x :: insert t l'
  end.

Definition sort (l : list Task) : list Task := fold_right insert [] l.

(** [executeTask] up to its first [await]: a task of a type without a
    [case] fails at once and stays in the map; the others wait for their
    handler.  The task was taken from the map, so the assignments to it
    are assignments to the entry under its id. *)
Definition executeTask (t : Task) (s : T) : T :=
  let started := with_status t running in
  let m := update (id t) (fun x => with_status x running) (tasks s) in
  if handled (type t) then
    {| tasks := m;
       current := Some started;
       emitted := emitted s ++ [taskStarted started] |}
  else
    {| tasks := update (id t) (failedWith (unknownType (type t))) m;
       current := None;
       emitted := emitted s
                  ++ [taskStarted started;
                      taskFailed
                        (failedWith (unknownType (type t)) started)] |}.

(** The rest of [executeTask], when the handler has returned: the entry
    under the task's id is deleted, whichever object it holds by then. *)
Definition resume (s : T) : T :=
  match current s with
  | None => s
  | Some t =>
      {| tasks := Map_delete (id t) (tasks s);
         current := None;
         emitted := emitted s ++ [taskCompleted (with_status t completed)] |}
  end.

(** One turn of the loop of [processTasks]. *)
Definition processTasks (s : T) : T :=
  match current s with
  | Some _ => s
  | None =>
      match sort (getPendingTasks s) with
      | [] => s
      | task :: _ => executeTask task s
      end
  end.

(** What happens to the manager: a call of [addTask], the loop waking
    from its delay, the awaited handler returning. *)
Inductive Event :=
| AddTask (idClock createdClock : Z) (ty d : string) (prio : option Z)
| Wake
| Handled.

Definition step (e : Event) (s : T) : T :=
  match e with
  | AddTask idClock createdClock ty d prio =>
      addTask idClock createdClock ty d prio s
  | Wake => processTasks s
  | Handled => resume s
  end.

Definition run (evs : list Event) (s : T) : T :=
  fold_left (fun s e => step e s) evs s.

(** A turn of the loop with its handler run to the end. *)
Definition turn (s : T) : T := resume (processTasks s).

Definition started (tr : list Emitted) : nat :=
  length
    (List.filter
       (fun e => match e with taskStarted _ => true | _ => false end) tr).

Definition added (tr : list Emitted) : nat :=
  length
    (List.filter
       (fun e => match e with taskAdded _ => true | _ => false end) tr).

(** [task] is the pending task of the map with the smallest priority
    number, the earliest of them. *)
Definition mostUrgent (task : Task) (m : list Task) : Prop :=
  exists before after,
    m = before ++ task :: after /\ isPending task = true /\
    (forall u, In u before -> isPending u = true ->
               priority task < priority u) /\
    (forall u, In u after -> isPending u = true ->
               priority task <= priority u).

(** What a run of turns leaves of a map: the pending tasks with a handler
    are gone, those without one are marked failed. *)
Definition settle (m : list Task) : list Task :=
  map (fun t => if isPending t then failedWith (unknownType (type t)) t
                else t)
    (List.filter (fun t => negb (isPending t && handled (type t))) m).

(** The keys of the map. *)
Definition ids (m : list Task) : list Z := map id m.

(** How many tasks of a map are pending. *)
Definition pendingCount (m : list Task) : nat :=
  length (List.filter isPending m).

(** What every run keeps: one entry per key, and no more tasks started or
    pending than were added. *)
Record Inv (s : T) : Prop := {
  inv_keys : List.NoDup (ids (tasks s));
  inv_count :
    (started (emitted s) + pendingCount (tasks s) <= added (emitted s))%nat
}.

End TaskManager.

Module TaskScenarios.
Import TaskManager.
Local Open Scope Z_scope.

(** Two pending tasks, the later one more urgent. *)
Definition twoTasks : T :=
  addTask 1750000000001 1750000000001 "SUBMIT_BID" "{}" (Some 2)
    (addTask 1750000000000 1750000000000 "PING" "{}" None init).

End TaskScenarios.

(** ** The bid manager of unnamed/part_000: [activeBids]

    Its operations go through the same queue; the marketplace calls in
    them are empty functions, so the update of the map always runs. *)
Module ActiveBids.

(** [this.activeBids]: collection -> object with an amount per platform
    name.  The platform is whatever text the caller passes: it is the
    property name as it stands. *)
Abbreviation T := (gmap string (gmap string Q)).

Inductive Operation :=
| SubmitBid (platform collection : string) (amount : Q)
| CancelBid (platform collection : string).

(** The closure queued by [submitBid]; the platform calls before the
    update are empty. *)
Definition submitOperation (platform collection : string) (amount : Q)
  (activeBids : T) : T :=
  let currentBids := default ∅ (activeBids !! collection) in
  <[collection := <[platform := amount]> currentBids]> activeBids.

(** The closure queued by [cancelBid]. *)
Definition cancelOperation (platform collection : string) (activeBids : T)
  : T :=
  match activeBids !! collection with
  | Some currentBids =>
      let currentBids := delete platform currentBids in
      if decide (size currentBids = 0%nat) then delete collection activeBids
      else <[collection := currentBids]> activeBids
  | None => activeBids
  end.

Definition exec (o : Operation) (activeBids : T) : T :=
  match o with
  | SubmitBid platform collection amount =>
      submitOperation platform collection amount activeBids
  | CancelBid platform collection =>
      cancelOperation platform collection activeBids
  end.

(** The operations of the queue, run in order on the empty map. *)
Definition replay (ops : list Operation) : T :=
  fold_left (fun m o => exec o m) ops ∅.

(** [activeBids.get(collection)?.[platform]]. *)
Definition activeBid (activeBids : T) (collection platform : string)
  : option Q :=
  activeBids !! collection ≫= fun currentBids => currentBids !! platform.

(** What the operations say about one collection and platform: the amount
    of the last submission for them, unless a cancellation for them came
    after it. *)
Definition lastWord (ops : list Operation) (collection platform : string)
  : option Q :=
  fold_left
    (fun r o =>
       match o with
       | SubmitBid p c amount =>
           if String.eqb c collection && String.eqb p platform
           then Some amount else r
       | CancelBid p c =>
           if String.eqb c collection && String.eqb p platform
           then None else r
       end)
    ops None.

(** No collection is kept with an empty object. *)
Definition noEmptyEntry (m : T) : Prop :=
  forall c cur, m !! c = Some cur -> cur <> ∅.

End ActiveBids.

(** ** The feeds the bidder reads: A2-Blur-Bids.cjs, old/A2-Opensea-bids.cjs *)
Module Feeds.
Import Js.

(** The key of A2-Blur-Bids.cjs. *)
Definition blurKey (addr : string) : string :=
  ("c-offer:blur:collection:" ++ addr)%string.

(** The key of old/A2-Opensea-bids.cjs. *)
Definition osKey (contract : string) : string :=
  ("c-offer:opensea:" ++ contract)%string.

Definition noColon (s : string) : bool :=
  forallb (fun ch => negb (Ascii.eqb ch ":"%char)) (list_ascii_of_string s).

Section BlurFeed.
(** [String.prototype.toLowerCase]. *)
Variable toLowerCase : string -> string.

(** The [allowed] set, from the [contract_address] fields of
    collections.json. *)
Definition allowed (collections : list string) : gset string :=
  list_to_set (map toLowerCase collections).

(** The fields of a parsed [collection_bidLevels] payload that the handler
    uses; [contractAddress] is [None] when it is missing or empty. *)
Record BidLevels := {
  contractAddress : option string;
  bestPrice : string
}.

(** The handler of [collection_bidLevels]: [evt] is [None] when the
    payload does not parse, [stored] tells whether [redisClient.set]
    succeeded. *)
Definition onCollectionBidLevels (collections : list string)
  (evt : option BidLevels) (stored : bool) (redis : gmap string string)
  : gmap string string :=
  match evt with
  | None => redis
  | Some evt =>
      let addr := toLowerCase (default ""%string (contractAddress evt)) in
      if decide (addr ∈ allowed collections) then
        if stored then <[blurKey addr := bestPrice evt]> redis else redis
      else redis
  end.

End BlurFeed.

(** The [count] of [fetchFirstOfferForSlug]: the consideration items of
    [itemType] 4, or 1 when there is none. *)
Definition count (itemTypes : list Z) : Z :=
  let nftCount :=
    Z.of_nat (length (List.filter (fun t => t =? 4) itemTypes)) in
  if 0 <? nftCount then nftCount else 1.

(** The [perWei] of [fetchFirstOfferForSlug]: the price per NFT in wei.
    BigInt division truncates. *)
Definition perWei (totalWei : Z) (itemTypes : list Z) : Z :=
  Z.quot totalWei (count itemTypes).

End Feeds.

Module FeedScenarios.

(** Lower case for the letters A to Z; enough for hexadecimal addresses. *)
Definition lowerAscii (s : string) : string :=
  string_of_list_ascii
    (map (fun ch =>
            let n := N_of_ascii ch in
            if ((65 <=? n) && (n <=? 90))%N then ascii_of_N (n + 32) else ch)
       (list_ascii_of_string s)).

End FeedScenarios.

(** * Properties *)

(** Division by a literal becomes a multiplication that [lra] accepts. *)
Ltac inv_consts :=
  unfold Qdiv in *;
  repeat match goal with
    | |- context [Qinv (Qmake ?n ?d)] =>
        let v := eval vm_compute in (Qinv (Qmake n d)) in
        change (Qinv (Qmake n d)) with v
    | H : context [Qinv (Qmake ?n ?d)] |- _ =>
        let v := eval vm_compute in (Qinv (Qmake n d)) in
        change (Qinv (Qmake n d)) with v in H
    end.

Ltac qlra := inv_consts; lra.

Module JsFacts.
Import Js Policy.
Local Open Scope Q_scope.




Lemma Qle_bool_false (x y : Q) : Qle_bool x y = false <-> y < x.
Proof.
  split.
  - intros E. apply Qnot_le_lt. intros L. apply Qle_bool_iff in L. congruence.
  - intros L. destruct (Qle_bool x y) eqn:E; [|reflexivity].
    apply Qle_bool_iff in E. lra.
Qed.

End JsFacts.

(** ** The calculators *)
Module CalculatorFacts.
Import Js Policy JsFacts.
Local Open Scope Q_scope.

Lemma calculateBidWithMargin_positive (p : Q) :
  0 < p - BlurBidder.PROFIT_MARGIN ->
  BlurBidder.calculateBidWithMargin p
  = Math_floor ((p - BlurBidder.PROFIT_MARGIN) * 100) / 100.
Proof.
  intros Hp. unfold BlurBidder.calculateBidWithMargin. cbv zeta.
  destruct (Qle_bool _ 0) eqn:E; [|reflexivity].
  apply Qle_bool_iff in E. exfalso. lra.
Qed.

Lemma calculateBidWithMargin_none (p : Q) :
  p - BlurBidder.PROFIT_MARGIN <= 0 ->
  BlurBidder.calculateBidWithMargin p = 0.
Proof.
  intros Hp. unfold BlurBidder.calculateBidWithMargin. cbv zeta.
  apply Qle_bool_iff in Hp. now rewrite Hp.
Qed.

Lemma calculateBidWithMargin_nonneg (p : Q) :
  0 <= BlurBidder.calculateBidWithMargin p.
Proof.
  unfold BlurBidder.calculateBidWithMargin. cbv zeta.
  destruct (Qle_bool _ 0) eqn:E; [lra|].
  apply Qle_bool_false in E. unfold Math_floor.
  assert (0 <= Qfloor ((p - BlurBidder.PROFIT_MARGIN) * 100))%Z as L.
  { rewrite <- (Qfloor_Z 0). apply Qfloor_resp_le.
    change (inject_Z 0) with 0. lra. }
  rewrite Zle_Qle in L. change (inject_Z 0) with 0 in L. qlra.
Qed.






(** The report script of old/ has both branches of the capped-outbid policy,
    with rounding to the nearest 0.00001 in place of the floor. *)
Lemma computeBidAmount_branches (blurBid osBid margin increment : Q) :
  0 < blurBid - margin ->
  Legacy.computeBidAmount blurBid osBid margin increment
  = Some (Math_round
            ((if Qle_bool (blurBid - margin) osBid then blurBid - margin
              else osBid + increment) * 100000) / 100000).
Proof.
  intros P. unfold Legacy.computeBidAmount. cbv zeta.
  apply Qle_bool_false in P. rewrite P.
  now destruct (Qle_bool (blurBid - margin) osBid).
Qed.

(** There the amount can exceed the cap: 0.200006 - 0.005 rounds up. *)
Lemma computeBidAmount_can_round_up :
  match Legacy.computeBidAmount 0.200006 0.30 0.005 0.00001 with
  | Some b => Qeq_bool b 0.19501 && negb (Qle_bool b (0.200006 - 0.005))
  | None => false
  end = true.
Proof. reflexivity. Qed.



End CalculatorFacts.

(** ** The Blur bidder: submission and recalculation *)
Module BidderFacts.
Import Js BlurBidder JsFacts CalculatorFacts.
Local Open Scope Q_scope.

Section WithWorld.
Context `{World}.

(** C5: when any step of [submitNewBlurBid] fails, Redis is what it was
    and no write is issued; when all succeed, the single write comes
    after the submit request has returned. *)
Theorem C5_no_write_unless_submitted (contract : string) (bidEth : Q)
  (st : State) :
  let r := respond (attempts st) in
  let st' := submitNewBlurBid contract bidEth st in
  (allStepsSucceed r = false ->
   redis st' = redis st /\
   exists evs, trace st' = trace st ++ evs /\
               forallb (fun e => negb (isRedisSet e)) evs = true) /\
  (allStepsSucceed r = true ->
   redis st' = <[bidKey contract := toFixed2 bidEth]> (redis st) /\
   exists signature,
     trace st' = trace st ++
       [PostFormat contract (toFixed2 bidEth);
        PostSubmit contract (toFixed2 bidEth) signature;
        LogSubmitted contract (toFixed2 bidEth);
        RedisSet (bidKey contract) (toFixed2 bidEth);
        LogSaved (bidKey contract) (toFixed2 bidEth)]).
Proof.
  cbv zeta. unfold allStepsSucceed, signedPayload, submitNewBlurBid.
  cbv zeta.
  destruct (format_response (respond (attempts st))) as [sigs|];
    [destruct (List.find _ sigs) as [sigObj|];
     [destruct (sign_response _ sigObj) as [signature|];
      [destruct (submit_accepted _)|]|]|];
    simpl; (split; [intros E | intros E]); try discriminate E;
    try (split; [reflexivity|]);
    rewrite <- ?app_assoc; simpl; eauto.
Qed.

Lemma submitNewBlurBid_lastSeen (contract : string) (bidEth : Q)
  (st : State) (m : Market) :
  lastSeen m (submitNewBlurBid contract bidEth st) = lastSeen m st.
Proof.
  unfold submitNewBlurBid. cbv zeta.
  destruct (format_response _) as [sigs|];
    [destruct (List.find _ sigs) as [sigObj|];
     [destruct (sign_response _ sigObj) as [signature|];
      [destruct (submit_accepted _)|]|]|];
    destruct m; reflexivity.
Qed.

(** C3, amended: when the cap [price - margin] is not positive the
    calculator returns 0, its "no bid" value, and the controller logs
    "margin too large" and returns: Redis, the last-seen maps and the
    attempt counter are untouched, no request of any kind is made. *)
Theorem C3_cap_not_positive_skips (m : Market) (contract raw : string)
  (price : Q) (st : State) :
  price - PROFIT_MARGIN <= 0 ->
  match m with
  | OpenSea => osOfferEth raw
  | Blur => blurBestPrice raw
  end = Some price ->
  calculateBidWithMargin price = 0 /\
  process m contract raw st
  = emit (LogMarginTooLarge m contract) (emit (CallProcess m contract raw) st).
Proof.
  intros Hcap Hprice.
  pose proof (calculateBidWithMargin_none price Hcap) as E.
  split; [exact E|].
  destruct m; simpl; unfold processFromOpenSea, processFromBlur;
    cbv zeta; rewrite Hprice; unfold rebid; cbv zeta; rewrite E;
    reflexivity.
Qed.

End WithWorld.

Lemma C5_no_write_unless_submitted_witness :
  @allStepsSucceed Scenarios.formatDown = false /\
  redis (@submitNewBlurBid Scenarios.formatDownWorld "0xabc" 0.19
           (Scenarios.startState {[ bidKey "0xabc" := "0.18"%string ]}))
  = {[ bidKey "0xabc" := "0.18"%string ]}.
Proof.
  split; [reflexivity|].
  exact (proj1 (proj1 (@C5_no_write_unless_submitted Scenarios.formatDownWorld
                        "0xabc" 0.19
                        (Scenarios.startState
                           {[ bidKey "0xabc" := "0.18"%string ]}))
                 eq_refl)).
Defined.

(** C3, as stated, fails: with a bid of 0.19 recorded for the contract and
    an OpenSea offer of 0.004, the controller makes no cancel (and no other
    request): it logs and skips, and the recorded bid stays. *)
Lemma C3_no_cancel_issued :
  let st := Scenarios.startState {[ bidKey "0xabc" := "0.19"%string ]} in
  let st' := @processFromOpenSea Scenarios.friendlyWorld "0xabc"
               (Scenarios.osOffer "0.004") st in
  @osOfferEth Scenarios.friendlyWorld (Scenarios.osOffer "0.004")
    = Some 0.004 /\
  0.004 - PROFIT_MARGIN <= 0 /\
  trace st' = [CallProcess OpenSea "0xabc" (Scenarios.osOffer "0.004");
               LogMarginTooLarge OpenSea "0xabc"] /\
  existsb isCancel (trace st') = false /\
  redis st' !! bidKey "0xabc" = Some "0.19"%string.
Proof.
  cbv zeta. split; [reflexivity|]. split; [discriminate|].
  split; [reflexivity|]. split; [reflexivity|].
  vm_compute. reflexivity.
Qed.

Lemma C3_cap_not_positive_skips_witness :
  0.004 - PROFIT_MARGIN <= 0 /\
  calculateBidWithMargin 0.004 = 0.
Proof.
  assert (0.004 - PROFIT_MARGIN <= 0) as L by discriminate.
  split; [exact L|].
  exact (proj1 (@C3_cap_not_positive_skips Scenarios.friendlyWorld OpenSea
                  "0xabc" (Scenarios.osOffer "0.004") 0.004
                  (Scenarios.startState ∅) L eq_refl)).
Defined.

End BidderFacts.

(** ** The Blur bidder: change detection *)
Module MonitorFacts.
Import Js BlurBidder JsFacts CalculatorFacts BidderFacts.
Local Open Scope Q_scope.

Lemma calls_app (t u : list Event) : calls (t ++ u) = calls t ++ calls u.
Proof. apply flat_map_app. Qed.

Section WithWorld.
Context `{World}.

Lemma submitNewBlurBid_calls (contract : string) (bidEth : Q) (st : State) :
  calls (trace (submitNewBlurBid contract bidEth st)) = calls (trace st).
Proof.
  unfold submitNewBlurBid. cbv zeta.
  destruct (format_response _) as [sigs|];
    [destruct (List.find _ sigs) as [sigObj|];
     [destruct (sign_response _ sigObj) as [signature|];
      [destruct (submit_accepted _)|]|]|];
    simpl; rewrite ?calls_app; simpl; rewrite ?app_nil_r; reflexivity.
Qed.

Lemma rebid_calls (m : Market) (contract : string) (p : Q) (st : State) :
  calls (trace (rebid m contract p st)) = calls (trace st).
Proof.
  unfold rebid. cbv zeta.
  destruct (Qle_bool _ 0);
    [|destruct (oldBidVal contract st) as [old|];
      [destruct (Qeq_bool old _)|]];
    rewrite ?submitNewBlurBid_calls; simpl; rewrite calls_app; simpl;
    apply app_nil_r.
Qed.

Lemma rebid_lastSeen (m m' : Market) (contract : string) (p : Q)
  (st : State) :
  lastSeen m' (rebid m contract p st) = lastSeen m' st.
Proof.
  unfold rebid. cbv zeta.
  destruct (Qle_bool _ 0);
    [|destruct (oldBidVal contract st) as [old|];
      [destruct (Qeq_bool old _)|]];
    rewrite ?submitNewBlurBid_lastSeen; destruct m'; reflexivity.
Qed.

Lemma process_calls (m : Market) (contract raw : string) (st : State) :
  calls (trace (process m contract raw st))
  = calls (trace st) ++ [(m, contract, raw)].
Proof.
  destruct m; simpl; unfold processFromOpenSea, processFromBlur; cbv zeta.
  - destruct (osOfferEth raw); rewrite ?rebid_calls; simpl;
      rewrite ?calls_app; simpl; rewrite ?app_nil_r; reflexivity.
  - destruct (blurBestPrice raw); rewrite ?rebid_calls; simpl;
      rewrite ?calls_app; simpl; rewrite ?app_nil_r; reflexivity.
Qed.

Lemma process_lastSeen (m m' : Market) (contract raw : string)
  (st : State) :
  lastSeen m' (process m contract raw st) = lastSeen m' st.
Proof.
  destruct m; simpl; unfold processFromOpenSea, processFromBlur; cbv zeta.
  - destruct (osOfferEth raw); rewrite ?rebid_lastSeen;
      destruct m'; reflexivity.
  - destruct (blurBestPrice raw); rewrite ?rebid_lastSeen;
      destruct m'; reflexivity.
Qed.

Lemma lastSeen_set (m : Market) (contract raw : string) (st : State) :
  lastSeen m (set_lastSeen m contract raw st) !! contract = Some raw.
Proof. destruct m; simpl; apply lookup_insert_eq. Qed.



(** Identical values on the next poll: nothing happens at all. *)
Lemma pollKey_quiet (m : Market) (key : string) (st : State) :
  quiet m st key -> pollKey m key st = st.
Proof.
  unfold quiet, pollKey. cbv zeta.
  destruct (redis st !! key) as [raw|]; [|reflexivity].
  intros [-> | ->]; [reflexivity|].
  destruct (String.eqb raw ""); [reflexivity|].
  now rewrite String.eqb_refl.
Qed.

Lemma pollTick_quiet (osKeys blurKeys : list string) (st : State) :
  Forall (quiet OpenSea st) osKeys -> Forall (quiet Blur st) blurKeys ->
  pollTick osKeys blurKeys st = st.
Proof.
  intros O B. unfold pollTick, forKeys.
  assert (forall m keys, Forall (quiet m st) keys ->
            fold_left (fun s k => pollKey m k s) keys st = st) as Loop.
  { intros m keys F. induction F as [|k keys Q _ IH]; simpl; [reflexivity|].
    now rewrite (pollKey_quiet m k st Q). }
  now rewrite (Loop OpenSea osKeys O), (Loop Blur blurKeys B).
Qed.




End WithWorld.




End MonitorFacts.

(** ** Printing with two decimals and reading back *)
Module RenderingFacts.
Import Js JsFacts.

Lemma digit_cases (d : Z) :
  isDigit d ->
  d = 0 \/ d = 1 \/ d = 2 \/ d = 3 \/ d = 4 \/ d = 5 \/ d = 6 \/ d = 7
  \/ d = 8 \/ d = 9.
Proof. unfold isDigit. lia. Qed.

Ltac each_digit d H :=
  destruct (digit_cases d H) as [->|[->|[->|[->|[->|[->|[->|[->|[->| ->]]]]]]]]].

Lemma digit_of_char (d : Z) : isDigit d -> digit_of (digit_char d) = Some d.
Proof. intros D. each_digit d D; reflexivity. Qed.

Lemma is_digit_char (d : Z) : isDigit d -> is_digit (digit_char d) = true.
Proof. intros D. unfold is_digit. now rewrite digit_of_char. Qed.

Lemma is_ws_char (d : Z) : isDigit d -> is_ws (digit_char d) = false.
Proof. intros D. each_digit d D; reflexivity. Qed.

Lemma read_sign_char (d : Z) (s : list ascii) :
  isDigit d -> read_sign (digit_char d :: s) = (false, digit_char d :: s).
Proof. intros D. each_digit d D; reflexivity. Qed.

Lemma read_digits_chars (ds : list Z) :
  forall acc cnt rest,
    Forall isDigit ds -> stops rest ->
    read_digits acc cnt (map digit_char ds ++ rest)
    = (horner acc ds, (cnt + length ds)%nat, rest).
Proof.
  induction ds as [|d ds IH]; intros acc cnt rest F S; simpl.
  - rewrite Nat.add_0_r. destruct rest as [|c rest]; [reflexivity|].
    simpl in S. simpl. now rewrite S.
  - inversion F as [|? ? D F']; subst. rewrite (digit_of_char d D).
    rewrite (IH _ _ rest F' S). f_equal. f_equal. lia.
Qed.

Lemma horner_app (a b : list Z) (acc : Z) :
  horner acc (a ++ b) = horner (horner acc a) b.
Proof. apply fold_left_app. Qed.

Lemma horner_pow (b : list Z) :
  forall acc, horner acc b = acc * 10 ^ Z.of_nat (length b) + horner 0 b.
Proof.
  induction b as [|d b IH]; intros acc.
  - simpl. lia.
  - cbn [horner fold_left length]. fold (horner (10 * acc + d) b).
    fold (horner (10 * 0 + d) b). rewrite (IH (10 * acc + d)).
    rewrite (IH (10 * 0 + d)). rewrite Nat2Z.inj_succ, Z.pow_succ_r by lia.
    ring.
Qed.

Lemma to_digits_spec (fuel : nat) :
  forall n acc,
    0 <= n < 10 ^ Z.of_nat (S fuel) ->
    exists ds, to_digits fuel n acc = ds ++ acc /\ Forall isDigit ds /\
               horner 0 ds = n /\ ds <> [].
Proof.
  induction fuel as [|fuel IH]; intros n acc B.
  - exists [n]. simpl. repeat split; try easy.
    + repeat constructor; simpl in B; lia.
  - cbn [to_digits]. destruct (n <? 10) eqn:L.
    + apply Z.ltb_lt in L. exists [n]. repeat split; try easy.
      repeat constructor; lia.
    + apply Z.ltb_ge in L.
      assert (0 <= n / 10 < 10 ^ Z.of_nat (S fuel)) as B'.
      { rewrite (Nat2Z.inj_succ (S fuel)), Z.pow_succ_r in B by lia.
        split; [apply Z.div_pos; lia|].
        apply Z.div_lt_upper_bound; lia. }
      destruct (IH (n / 10) (n mod 10 :: acc) B') as (ds & E & F & V & N).
      exists (ds ++ [n mod 10]). rewrite E, <- app_assoc. repeat split.
      * apply Forall_app. split; [exact F|].
        repeat constructor; pose proof (Z.mod_pos_bound n 10); lia.
      * rewrite horner_app, V. simpl.
        pose proof (Z.div_mod n 10). lia.
      * destruct ds; discriminate.
Qed.

Lemma digits_of_spec (n : Z) :
  0 <= n ->
  Forall isDigit (digits_of n) /\ horner 0 (digits_of n) = n
  /\ digits_of n <> [].
Proof.
  intros P. unfold digits_of.
  assert (0 <= n < 10 ^ Z.of_nat (S (Z.to_nat (Z.log2 n)))) as B.
  { split; [exact P|].
    rewrite Nat2Z.inj_succ, Z2Nat.id by apply Z.log2_nonneg.
    destruct (Z.eq_dec n 0) as [->|N]; [reflexivity|].
    apply Z.lt_le_trans with (2 ^ Z.succ (Z.log2 n)).
    - apply Z.log2_spec. lia.
    - apply Z.pow_le_mono_l. pose proof (Z.log2_nonneg n). lia. }
  destruct (to_digits_spec _ n [] B) as (ds & E & F & V & N).
  rewrite E, app_nil_r. auto.
Qed.

Lemma pad_zeros_spec (k : nat) (ds : list Z) :
  Forall isDigit ds ->
  Forall isDigit (pad_zeros k ds)
  /\ horner 0 (pad_zeros k ds) = horner 0 ds
  /\ (k <= length (pad_zeros k ds))%nat.
Proof.
  intros F. unfold pad_zeros. repeat split.
  - apply Forall_app. split; [|exact F].
    induction (k - length ds)%nat as [|j IH]; simpl; constructor;
      [unfold isDigit; lia | exact IH].
  - rewrite horner_app. f_equal.
    induction (k - length ds)%nat as [|j IH]; [reflexivity|exact IH].
  - rewrite length_app, repeat_length. lia.
Qed.

Local Open Scope Q_scope.

Lemma Qfloor_unique (x : Q) (n : Z) :
  inject_Z n <= x -> x < inject_Z (n + 1) -> Qfloor x = n.
Proof.
  intros L U.
  pose proof (Qfloor_le x) as L'. pose proof (Qlt_floor x) as U'.
  assert (inject_Z (Qfloor x) < inject_Z (n + 1)) as A by lra.
  assert (inject_Z n < inject_Z (Qfloor x + 1)) as B by lra.
  rewrite <- Zlt_Qlt in A, B. lia.
Qed.

Lemma read_decimal_fixed (pre post : list Z) :
  Forall isDigit pre -> Forall isDigit post -> pre <> [] ->
  read_decimal (map digit_char pre ++ "."%char :: map digit_char post)
  = Some (scale10 (inject_Z (horner 0 pre)
                   + inject_Z (horner 0 post) / pow10 (length post)) 0,
          []).
Proof.
  intros Fpre Fpost N.
  destruct pre as [|d pre']; [contradiction|].
  assert (isDigit d) as D by now inversion Fpre.
  assert (read_sign (map digit_char (d :: pre') ++ "."%char :: map digit_char post)
          = (false, map digit_char (d :: pre') ++ "."%char :: map digit_char post))
    as E1 by apply (read_sign_char d _ D).
  unfold read_decimal. rewrite E1.
  rewrite (read_digits_chars (d :: pre') 0 0 _ Fpre) by reflexivity.
  rewrite <- (app_nil_r (map digit_char post)).
  rewrite (read_digits_chars post 0 0 [] Fpost) by exact I.
  cbn [length Nat.add]. reflexivity.
Qed.

Lemma firstn_skipn_last2 (ds : list Z) :
  (3 <= length ds)%nat ->
  exists pre p1 p2,
    firstn (length ds - 2) ds = pre /\ skipn (length ds - 2) ds = [p1; p2]
    /\ ds = pre ++ [p1; p2] /\ pre <> [].
Proof.
  intros L.
  pose proof (firstn_skipn (length ds - 2) ds) as E.
  pose proof (length_skipn (length ds - 2) ds) as Ls.
  pose proof (length_firstn (length ds - 2) ds) as Lf.
  destruct (skipn (length ds - 2) ds) as [|p1 [|p2 [|p3 r]]] eqn:S;
    simpl in Ls; try lia.
  exists (firstn (length ds - 2) ds), p1, p2. repeat split; try easy.
  intros Z. rewrite Z in Lf. simpl in Lf. lia.
Qed.

(** A non-negative whole number of cents prints with two decimals and
    reads back as the same number. *)
Lemma toFixed2_cents (n : Z) (b : Q) :
  (0 <= n)%Z -> b == inject_Z n / 100 ->
  twoDecimals (toFixed2 b) = true /\
  exists q, parseFloat (toFixed2 b) = Some q /\ q == b.
Proof.
  intros P E.
  assert (0 <= inject_Z n) as P' by (rewrite Zle_Qle in P; exact P).
  assert (Qle_bool 0 b = true) as S by (apply Qle_bool_iff; qlra).
  assert (Qfloor (b * 100 + (1 # 2)) = n) as F.
  { apply Qfloor_unique; rewrite ?inject_Z_plus; change (inject_Z 1) with 1;
      qlra. }
  destruct (digits_of_spec n P) as (Fd & Vd & _).
  destruct (pad_zeros_spec 3 _ Fd) as (Fp & Vp & Lp).
  destruct (firstn_skipn_last2 _ Lp) as (pre & p1 & p2 & E1 & E2 & E3 & N).
  assert (Forall isDigit pre /\ Forall isDigit [p1; p2]) as [Fpre Fpost].
  { rewrite E3 in Fp. now apply Forall_app in Fp. }
  assert (toFixed2 b
          = string_of_list_ascii
              (map digit_char pre ++ "."%char :: map digit_char [p1; p2]))
    as T.
  { unfold toFixed2. cbv zeta. rewrite S. cbn [negb]. rewrite F.
    now rewrite E1, E2. }
  rewrite T. split.
  - unfold twoDecimals. rewrite list_ascii_of_string_of_list_ascii.
    rewrite rev_app_distr. cbn [map rev app].
    destruct (rev (map digit_char pre)) as [|i ip] eqn:R.
    { apply (f_equal (@length ascii)) in R.
      rewrite length_rev, length_map in R. destruct pre; [easy|discriminate]. }
    inversion Fpost as [|? ? D1 Fpost']; subst.
    inversion Fpost' as [|? ? D2 _]; subst.
    rewrite !is_digit_char by assumption. cbn [andb].
    rewrite <- R. rewrite forallb_forall. intros c Hc.
    apply in_rev, in_map_iff in Hc. destruct Hc as (d & <- & Hd).
    apply is_digit_char. rewrite Forall_forall in Fpre. apply Fpre.
    now apply list_elem_of_In.
  - unfold parseFloat. rewrite list_ascii_of_string_of_list_ascii.
    assert (trimStart_l (map digit_char pre ++ "."%char :: map digit_char [p1; p2])
            = map digit_char pre ++ "."%char :: map digit_char [p1; p2]) as W.
    { destruct pre as [|d pre']; [contradiction|].
      cbn [map app trimStart_l]. rewrite is_ws_char; [reflexivity|].
      now inversion Fpre. }
    rewrite W, (read_decimal_fixed pre [p1; p2] Fpre Fpost N).
    eexists. split; [reflexivity|].
    assert (n = horner 0 pre * 100 + horner 0 [p1; p2])%Z as Vn.
    { rewrite <- Vd, <- Vp, E3, horner_app, horner_pow. reflexivity. }
    unfold scale10, pow10. cbn [Z.ltb Z.compare length].
    change (inject_Z (10 ^ Z.of_nat 2)) with 100.
    change (inject_Z (10 ^ Z.of_nat (Z.to_nat 0))) with 1.
    rewrite E, Vn, inject_Z_plus, inject_Z_mult.
    change (inject_Z 100) with 100. qlra.
Qed.

End RenderingFacts.

(** ** What the bidder writes into Redis *)
Module LedgerWriteFacts.
Import Js BlurBidder JsFacts CalculatorFacts RenderingFacts.
Local Open Scope Q_scope.

Lemma calculateBidWithMargin_cents (p : Q) :
  Qle_bool (calculateBidWithMargin p) 0 = false ->
  exists n : Z, (0 < n)%Z /\ calculateBidWithMargin p == inject_Z n / 100.
Proof.
  intros B. apply Qle_bool_false in B.
  destruct (Qlt_le_dec 0 (p - PROFIT_MARGIN)) as [L|L].
  - rewrite calculateBidWithMargin_positive in * by assumption.
    exists (Qfloor ((p - PROFIT_MARGIN) * 100)). split; [|reflexivity].
    unfold Math_floor in B. rewrite Zlt_Qlt. change (inject_Z 0) with 0.
    qlra.
  - rewrite calculateBidWithMargin_none in B by assumption. lra.
Qed.

Section WithWorld.
Context `{World}.










End WithWorld.


End LedgerWriteFacts.

(** ** The operation queue *)
Module QueueFacts.
Import OperationQueue.

Section Queue.
Context {Op W : Type}.
Variable exec : Op -> W -> bool * W.

Local Abbreviation T := (@T Op W).
Local Abbreviation Event := (@Event Op).
Local Abbreviation Inv := (@Inv Op W).

Lemma Inv_init (w : W) : Inv [] (init w).
Proof. constructor; simpl; auto. Qed.

Lemma thrown_app (l : list (Op * bool)) (o : Op) (ok : bool) :
  thrown (l ++ [(o, ok)]) = thrown l ++ (if ok then [] else [o]).
Proof.
  unfold thrown. rewrite List.filter_app, map_app. simpl.
  now destruct ok.
Qed.

Lemma Inv_addToQueue (enq : list Op) (s : T) (o : Op) :
  Inv enq s -> Inv (enq ++ [o]) (addToQueue o s).
Proof.
  intros [F S E G]. unfold addToQueue. cbv zeta. simpl.
  destruct (processingQueue s) eqn:P.
  - constructor; simpl; rewrite ?P; auto.
    now rewrite app_assoc, F.
  - destruct G as [G1 G2]. unfold processQueue. simpl.
    rewrite G2, G1 in *. simpl. rewrite app_nil_r in *.
    constructor; simpl; auto.
    + now rewrite app_nil_r, F.
    + now rewrite S.
Qed.

Lemma Inv_resume (enq : list Op) (s : T) : Inv enq s -> Inv enq (resume exec s).
Proof.
  intros [F S E G]. unfold resume.
  destruct (inFlight s) as [|o others] eqn:I.
  { constructor; rewrite ?I; auto. }
  destruct (processingQueue s) eqn:P;
    [|destruct G as [G _]; discriminate G].
  simpl in G. assert (others = []) as -> by (destruct others; [easy|discriminate]).
  destruct (exec o (world s)) as [ok w].
  unfold processQueue. simpl.
  destruct (bidQueue s) as [|next rest] eqn:Q; constructor; simpl; auto;
    try (rewrite thrown_app, E; destruct ok;
         [now rewrite app_nil_r | reflexivity]).
  - now rewrite map_app, S, app_nil_r.
  - rewrite <- app_assoc. exact F.
  - now rewrite map_app, S.
Qed.

Lemma Inv_run (evs : list Event) :
  forall enq s, Inv enq s -> Inv (enq ++ enqueued evs) (run exec evs s).
Proof.
  induction evs as [|e evs IH]; intros enq s I.
  - simpl. now rewrite app_nil_r.
  - destruct e as [o|].
    + assert (enqueued (Enqueue o :: evs) = [o] ++ enqueued evs) as ->
          by reflexivity.
      rewrite app_assoc. apply IH. now apply Inv_addToQueue.
    + apply (IH enq). now apply Inv_resume.
Qed.

Lemma Inv_serial_bound (enq : list Op) (s : T) :
  Inv enq s -> (length (inFlight s) <= 1)%nat.
Proof.
  intros [_ _ _ G]. destruct (processingQueue s).
  - lia.
  - destruct G as [-> _]. simpl. lia.
Qed.

Lemma resume_next (enq : list Op) (s : T) (o next : Op) (rest : list Op) :
  Inv enq s -> inFlight s = [o] -> bidQueue s = next :: rest ->
  inFlight (resume exec s) = [next] /\ bidQueue (resume exec s) = rest /\
  settled (resume exec s) = settled s ++ [(o, fst (exec o (world s)))].
Proof.
  intros _ I Q. unfold resume. rewrite I.
  destruct (exec o (world s)) as [ok w]. unfold processQueue. simpl.
  rewrite Q. simpl. auto.
Qed.

Lemma drain_steps (n : nat) :
  forall enq s,
    Inv enq s ->
    (length (inFlight s) + length (bidQueue s))%nat = n ->
    let s' := run exec (repeat Settle n) s in
    Inv enq s' /\ bidQueue s' = [] /\ inFlight s' = []
    /\ processingQueue s' = false.
Proof.
  induction n as [|n IH]; intros enq s I M; cbv zeta.
  - simpl. split; [exact I|].
    pose proof (inv_flag _ _ I) as G.
    destruct (inFlight s) eqn:A; [|discriminate M].
    destruct (bidQueue s) eqn:B; [|discriminate M].
    repeat split.
    destruct (processingQueue s); [discriminate G|reflexivity].
  - simpl. apply IH; [now apply Inv_resume|].
    pose proof (inv_flag _ _ I) as G.
    destruct (processingQueue s) eqn:P.
    + destruct (inFlight s) as [|o [|o' others]] eqn:A; try discriminate G.
      unfold resume. rewrite A. destruct (exec o (world s)) as [ok w].
      unfold processQueue. simpl. simpl in M.
      destruct (bidQueue s) as [|next rest]; simpl in *; lia.
    + destruct G as [A B]. rewrite A, B in M. discriminate M.
Qed.

(** C8: whatever is enqueued and whenever operations settle, at most one
    operation is in flight; the operations started so far, followed by
    those still queued, are the operations enqueued, in enqueue order;
    an operation starts only when all started before it have settled;
    a thrown operation is logged, and when the one in flight settles -
    returned or thrown - the next queued one starts. *)
Theorem C8_serial_fifo_resilient (w : W) (evs : list Event) :
  let s := run exec evs (init w) in
  (length (inFlight s) <= 1)%nat /\
  started s ++ bidQueue s = enqueued evs /\
  started s = map fst (settled s) ++ inFlight s /\
  errorLog s = thrown (settled s) /\
  (forall o next rest,
     inFlight s = [o] -> bidQueue s = next :: rest ->
     inFlight (step exec s Settle) = [next] /\
     bidQueue (step exec s Settle) = rest /\
     settled (step exec s Settle)
     = settled s ++ [(o, fst (exec o (world s)))]).
Proof.
  cbv zeta. pose proof (Inv_run evs [] (init w) (Inv_init w)) as I.
  simpl in I.
  split; [exact (Inv_serial_bound _ _ I)|].
  split; [exact (inv_fifo _ _ I)|].
  split; [exact (inv_serial _ _ I)|].
  split; [exact (inv_errors _ _ I)|].
  intros o next rest A Q. exact (resume_next _ _ _ _ _ I A Q).
Qed.

(** C9: from any state the queue can reach, once nothing more is
    enqueued, as many settlements as there are operations in flight and
    queued leave the queue empty, nothing in flight and the flag false;
    every operation enqueued has then been run, in order; and the next
    [addToQueue] starts its operation at once. *)
Theorem C9_drain_terminates (w : W) (evs : list Event) :
  let s := drain exec (run exec evs (init w)) in
  bidQueue s = [] /\ inFlight s = [] /\ processingQueue s = false /\
  map fst (settled s) = enqueued evs /\
  (forall o, inFlight (addToQueue o s) = [o] /\
             processingQueue (addToQueue o s) = true /\
             bidQueue (addToQueue o s) = []).
Proof.
  cbv zeta. pose proof (Inv_run evs [] (init w) (Inv_init w)) as I.
  simpl in I. unfold drain.
  destruct (drain_steps _ _ _ I eq_refl) as (I' & Q & A & P).
  cbv zeta in *. repeat split; auto.
  - pose proof (inv_fifo _ _ I') as F. pose proof (inv_serial _ _ I') as S.
    rewrite Q, app_nil_r in F. rewrite A, app_nil_r in S. congruence.
  - unfold addToQueue. cbv zeta. simpl. rewrite P. unfold processQueue.
    simpl. rewrite Q, A. reflexivity.
  - unfold addToQueue. cbv zeta. simpl. rewrite P. unfold processQueue.
    simpl. now rewrite Q.
  - unfold addToQueue. cbv zeta. simpl. rewrite P. unfold processQueue.
    simpl. now rewrite Q.
Qed.

End Queue.

Lemma C8_serial_fifo_resilient_witness :
  let s := run Scenarios.oddThrows [Enqueue 1%nat; Enqueue 2%nat] (init []) in
  inFlight s = [1%nat] /\ bidQueue s = [2%nat] /\
  inFlight (step Scenarios.oddThrows s Settle) = [2%nat] /\
  settled (step Scenarios.oddThrows s Settle) = [(1%nat, false)].
Proof.
  cbv zeta. split; [reflexivity|]. split; [reflexivity|].
  pose proof (proj2 (proj2 (proj2 (proj2
    (C8_serial_fifo_resilient Scenarios.oddThrows []
       [Enqueue 1%nat; Enqueue 2%nat])))) 1%nat 2%nat [] eq_refl eq_refl)
    as (A & _ & B).
  split; [exact A | exact B].
Defined.

End QueueFacts.

(** ** The ledger of BidManager *)
Module LedgerFacts.
Import Js Services.
Local Open Scope Q_scope.

Lemma allPending_platform (cb : CollectionBids) (p : Platform) :
  allPending (blurBids cb) /\ allPending (openseaBids cb) ->
  allPending (platformBids cb p).
Proof. intros [A B]. now destruct p. Qed.

Lemma allPending_set (cb : CollectionBids) (p : Platform) (l : list NftBid) :
  allPending (blurBids cb) /\ allPending (openseaBids cb) ->
  allPending l ->
  allPending (blurBids (setPlatformBids cb p l))
  /\ allPending (openseaBids (setPlatformBids cb p l)).
Proof. intros [A B] L. now destruct p. Qed.

Lemma AllPending_insert (l : Ledger) (c : string) (cb : CollectionBids) :
  AllPending l ->
  allPending (blurBids cb) /\ allPending (openseaBids cb) ->
  AllPending (setBids l (<[c := cb]> (bids l))).
Proof.
  intros A C c' cb'. simpl. rewrite lookup_insert.
  destruct (decide (c = c')); [now intros [= <-]|apply A].
Qed.

Lemma AllPending_getBids (l : Ledger) (c : string) (p : Platform) :
  AllPending l -> allPending (getBids l c p).
Proof.
  intros A. unfold getBids. destruct (bids l !! c) as [cb|] eqn:E.
  - apply allPending_platform, (A c cb E).
  - constructor.
Qed.

(** No stored bid is ever found active: the status is set by the
    constructor only. *)
Lemma getActiveBids_none (a : Answers) (l : Ledger) (c : string)
  (p : Platform) :
  AllPending l -> getActiveBids a l c p = [].
Proof.
  intros A. unfold getActiveBids.
  pose proof (AllPending_getBids l c p A) as F.
  induction F as [|b bs P _ IH]; [reflexivity|].
  simpl. unfold isActiveAt at 1. rewrite P. simpl. exact IH.
Qed.

Section WithHost.
Context `{Host}.

Lemma AllPending_step (l : Ledger) :
  AllPending l -> AllPending {| bids := bids l; opCount := S (opCount l) |}.
Proof. intros A c cb. apply A. Qed.

Lemma addBid_AllPending (a : Answers) (b : NftBid) (l : Ledger) :
  AllPending l -> status b = pending -> AllPending (snd (addBid a b l)).
Proof.
  intros A P. unfold addBid. destruct (validate a b); [|exact A].
  cbv zeta. simpl. apply AllPending_insert; [exact A|].
  destruct (bids l !! collection b) as [cb|] eqn:E.
  - apply allPending_set; [apply (A _ _ E)|].
    apply Forall_app. split.
    + apply allPending_platform, (A _ _ E).
    + now repeat constructor.
  - apply allPending_set; [split; constructor|].
    destruct (platform b); simpl; now repeat constructor.
Qed.

Lemma removeBid_AllPending (a : Answers) (c : string) (p : Platform)
  (n : string) (l : Ledger) :
  AllPending l -> AllPending (snd (removeBid a c p n l)).
Proof.
  intros A. unfold removeBid.
  destruct (bids l !! c) as [cb|] eqn:E; [|exact A].
  destruct (findIndex n (platformBids cb p)) as [index|]; [|exact A].
  cbv zeta. simpl. apply AllPending_insert; [exact A|].
  apply allPending_set; [apply (A _ _ E)|].
  apply Forall_delete, allPending_platform, (A _ _ E).
Qed.

Lemma submitOperation_adds (a : Answers) (p : Platform) (c : string)
  (amt : Q) (l : Ledger) :
  AllPending l ->
  submitOperation a p c amt l
  = if platformAccepts a then addBid a (freshBid a c p amt) l
    else (false, l).
Proof.
  intros A. unfold submitOperation. cbv zeta.
  now rewrite (getActiveBids_none a l c p A).
Qed.

Lemma exec_AllPending (o : Operation) (l : Ledger) :
  AllPending l -> AllPending (snd (exec o l)).
Proof.
  intros A. unfold exec. cbv zeta.
  pose proof (AllPending_step l A) as A'.
  destruct o as [p c amt|p c n].
  - rewrite (submitOperation_adds _ _ _ _ _ A').
    destruct (platformAccepts _); [|exact A'].
    now apply addBid_AllPending.
  - now apply removeBid_AllPending.
Qed.

Lemma loadBids_AllPending (a : Answers)
  (file : gmap string (list BidJSON * list BidJSON)) :
  AllPending (loadBids a file).
Proof.
  intros c cb. unfold loadBids. simpl. rewrite lookup_fmap.
  destruct (file !! c) as [[bl os]|]; [|discriminate].
  intros [= <-]. simpl. split; apply Forall_map, Forall_true; easy.
Qed.

Lemma cleanup_AllPending (t : Z) (l : Ledger) :
  AllPending l -> AllPending (cleanupExpiredBids t l).
Proof.
  intros A c cb. unfold cleanupExpiredBids. simpl. rewrite lookup_fmap.
  destruct (bids l !! c) as [cb0|] eqn:E; [|discriminate].
  intros [= <-]. simpl. destruct (A _ _ E) as [B O].
  split; unfold allPending in *; rewrite Forall_forall in *;
    intros b I; apply list_elem_of_In, filter_In in I;
    [apply B | apply O]; now apply list_elem_of_In.
Qed.

Lemma reachable_AllPending (l : Ledger) : reachable l -> AllPending l.
Proof.
  induction 1.
  - apply loadBids_AllPending.
  - now apply exec_AllPending.
  - now apply cleanup_AllPending.
Qed.

(** On any reachable ledger an accepted, valid submission is appended to
    the bids of its key, whatever is already there. *)
Lemma submit_always_appends (o : Operation) (p : Platform) (c : string)
  (amt : Q) (l : Ledger) :
  reachable l ->
  o = SubmitBid p c amt ->
  platformAccepts (answers (opCount l)) = true ->
  validate (answers (opCount l))
    (freshBid (answers (opCount l)) c p amt) = true ->
  liveBids (snd (exec o l)) c p
  = liveBids l c p ++ [freshBid (answers (opCount l)) c p amt].
Proof.
  intros R -> P V. unfold exec. cbv zeta.
  rewrite submitOperation_adds by apply AllPending_step, reachable_AllPending, R.
  rewrite P. unfold addBid. rewrite V. cbv zeta.
  unfold liveBids, getBids. simpl. rewrite lookup_insert_eq.
  destruct (bids l !! c) as [cb|]; destruct p; simpl;
    rewrite ?List.filter_app; reflexivity.
Qed.

End WithHost.

(** C2 fails on the code: two submissions for one key, each accepted by the
    marketplace, leave two pending bids for that key in the ledger. *)
Theorem C2_two_live_bids_for_one_key :
  let ops := [OperationQueue.Enqueue
                (SubmitBid blur Scenarios.collectionA 0.19);
              OperationQueue.Settle;
              OperationQueue.Enqueue
                (SubmitBid blur Scenarios.collectionA 0.21);
              OperationQueue.Settle] in
  let s := OperationQueue.run (@exec Scenarios.friendlyHost) ops
             (OperationQueue.init emptyLedger) in
  map (fun b => (Qred (amount b), status b))
    (liveBids (OperationQueue.world s) Scenarios.collectionA blur)
  = [(0.19, pending); (0.21, pending)]
  /\ OperationQueue.settled s
     = [(SubmitBid blur Scenarios.collectionA 0.19, true);
        (SubmitBid blur Scenarios.collectionA 0.21, true)].
Proof.
  cbv zeta. split; vm_compute; reflexivity.
Qed.

End LedgerFacts.

(** ** The Blur bidder: further properties *)
Module BidderMoreFacts.
Import Js BlurBidder BidderFrame JsFacts CalculatorFacts RenderingFacts
  LedgerWriteFacts MonitorFacts.
Local Open Scope Q_scope.


(** A higher observed price never gives a lower bid. *)
Theorem calculateBidWithMargin_monotone (p q : Q) :
  p <= q -> calculateBidWithMargin p <= calculateBidWithMargin q.
Proof.
  intros L.
  destruct (Qlt_le_dec 0 (p - PROFIT_MARGIN)) as [P|P].
  - assert (0 < q - PROFIT_MARGIN) as P' by lra.
    rewrite !calculateBidWithMargin_positive by assumption.
    unfold Math_floor.
    assert (Qfloor ((p - PROFIT_MARGIN) * 100)
            <= Qfloor ((q - PROFIT_MARGIN) * 100))%Z as F
        by (apply Qfloor_resp_le; lra).
    rewrite Zle_Qle in F. qlra.
  - rewrite (calculateBidWithMargin_none p) by assumption.
    apply calculateBidWithMargin_nonneg.
Qed.

Lemma calculateBidWithMargin_monotone_witness :
  0.18 <= 0.31 /\ calculateBidWithMargin 0.18 <= calculateBidWithMargin 0.31.
Proof.
  assert (0.18 <= 0.31) as L by discriminate.
  split; [exact L|]. exact (calculateBidWithMargin_monotone 0.18 0.31 L).
Defined.


Section WithWorld.
Context `{World}.

Lemma onlyBidsWritten_refl (st : State) : onlyBidsWritten st st.
Proof. intros k. now left. Qed.

Lemma onlyBidsWritten_trans (a b c : State) :
  onlyBidsWritten a b -> onlyBidsWritten b c -> onlyBidsWritten a c.
Proof.
  intros R S k. destruct (S k) as [E|E]; [|now right].
  rewrite E. apply R.
Qed.

Lemma onlyBidsWritten_same (st st' : State) :
  redis st' = redis st -> onlyBidsWritten st st'.
Proof. intros E k. left. now rewrite E. Qed.

Lemma submitNewBlurBid_redis (contract : string) (bidEth : Q) (st : State) :
  redis (submitNewBlurBid contract bidEth st)
  = if allStepsSucceed (respond (attempts st))
    then <[bidKey contract := toFixed2 bidEth]> (redis st)
    else redis st.
Proof.
  unfold allStepsSucceed, signedPayload, submitNewBlurBid. cbv zeta.
  destruct (format_response _) as [sigs|];
    [destruct (List.find _ sigs) as [sigObj|];
     [destruct (sign_response _ sigObj) as [signature|];
      [destruct (submit_accepted _)|]|]|];
    reflexivity.
Qed.

Lemma submitNewBlurBid_attempts (contract : string) (bidEth : Q) (st : State) :
  attempts (submitNewBlurBid contract bidEth st) = S (attempts st).
Proof.
  unfold submitNewBlurBid. cbv zeta.
  destruct (format_response _) as [sigs|];
    [destruct (List.find _ sigs) as [sigObj|];
     [destruct (sign_response _ sigObj) as [signature|];
      [destruct (submit_accepted _)|]|]|];
    reflexivity.
Qed.

Lemma rebid_frame (m : Market) (contract : string) (p : Q) (st : State) :
  onlyBidsWritten st (rebid m contract p st).
Proof.
  unfold rebid. cbv zeta.
  destruct (Qle_bool (calculateBidWithMargin p) 0) eqn:B;
    [now apply onlyBidsWritten_same|].
  destruct (calculateBidWithMargin_cents p B) as (n & P & E).
  destruct (toFixed2_cents n _ ltac:(lia) E) as (T & _).
  assert (forall st0, redis st0 = redis st ->
            onlyBidsWritten st
              (submitNewBlurBid contract (calculateBidWithMargin p) st0)) as S.
  { intros st0 E0 k. rewrite submitNewBlurBid_redis, E0.
    destruct (allStepsSucceed _); [|now left].
    rewrite lookup_insert. destruct (decide (bidKey contract = k)) as [<-|N];
      [right; eauto|now left]. }
  destruct (oldBidVal contract st) as [old|];
    [destruct (Qeq_bool old _); [now apply onlyBidsWritten_same|]|];
    now apply S.
Qed.

Lemma process_frame (m : Market) (contract raw : string) (st : State) :
  onlyBidsWritten st (process m contract raw st).
Proof.
  destruct m; simpl; unfold processFromOpenSea, processFromBlur; cbv zeta;
    [destruct (osOfferEth raw) | destruct (blurBestPrice raw)];
    try (now apply onlyBidsWritten_same);
    (eapply onlyBidsWritten_trans; [|apply rebid_frame]);
    now apply onlyBidsWritten_same.
Qed.

Lemma set_lastSeen_redis (m : Market) (c r : string) (st : State) :
  redis (set_lastSeen m c r st) = redis st.
Proof. now destruct m. Qed.

Lemma pollKey_frame (m : Market) (key : string) (st : State) :
  onlyBidsWritten st (pollKey m key st).
Proof.
  unfold pollKey. cbv zeta.
  destruct (redis st !! key) as [raw|]; [|apply onlyBidsWritten_refl].
  destruct (String.eqb raw ""); [apply onlyBidsWritten_refl|].
  destruct (lastSeen m st !! contractOf m key) as [prev|];
    [destruct (String.eqb prev _); [apply onlyBidsWritten_refl|]|];
    (eapply onlyBidsWritten_trans; [|apply process_frame]);
    apply onlyBidsWritten_same; now rewrite set_lastSeen_redis.
Qed.




Lemma oldBidVal_redis (contract : string) (st st' : State) :
  redis st' = redis st -> oldBidVal contract st' = oldBidVal contract st.
Proof. intros E. unfold oldBidVal. now rewrite E. Qed.

Lemma twoDecimals_nonempty (v : string) :
  twoDecimals v = true -> String.eqb v "" = false.
Proof. now destruct v. Qed.

(** Once a bid has been placed for a price, processing the same feed value
    again finds the stored bid equal to the recalculated one and stops at
    "unchanged": no request is made and Redis is not written. *)
Theorem reprocessing_a_placed_bid_is_unchanged (m : Market)
  (contract raw : string) (p : Q) (st : State) :
  observedPrice m raw = Some p ->
  Qle_bool (calculateBidWithMargin p) 0 = false ->
  allStepsSucceed (respond (attempts st)) = true ->
  let st1 := process m contract raw st in
  process m contract raw st1
  = emit (LogUnchanged m contract (calculateBidWithMargin p))
      (emit (CallProcess m contract raw) st1).
Proof.
  intros Hp Hb Hok. cbv zeta.
  destruct (calculateBidWithMargin_cents p Hb) as (n & Pn & En).
  destruct (toFixed2_cents n _ ltac:(lia) En) as (T & q & Pq & Eq).
  assert (forall s, process m contract raw s
                    = rebid m contract p (emit (CallProcess m contract raw) s))
    as Unf.
  { intros s. destruct m; simpl in *;
      unfold processFromOpenSea, processFromBlur; cbv zeta; now rewrite Hp. }
  assert (exists old, oldBidVal contract (process m contract raw st) = Some old
                      /\ Qeq_bool old (calculateBidWithMargin p) = true) as Old.
  { assert (forall st0, attempts st0 = attempts st ->
              exists old,
                oldBidVal contract
                  (submitNewBlurBid contract (calculateBidWithMargin p) st0)
                = Some old
                /\ Qeq_bool old (calculateBidWithMargin p) = true) as S.
    { intros st0 A. exists q. unfold oldBidVal.
      rewrite submitNewBlurBid_redis, A, Hok, lookup_insert_eq.
      rewrite (twoDecimals_nonempty _ T), Pq. split; [reflexivity|].
      now apply Qeq_bool_iff. }
    rewrite Unf. unfold rebid. cbv zeta. rewrite Hb.
    destruct (oldBidVal contract (emit _ st)) as [old|] eqn:O.
    - destruct (Qeq_bool old _) eqn:Q.
      + exists old. split; [|exact Q].
        rewrite <- O. now apply oldBidVal_redis.
      + now apply S.
    - now apply S. }
  destruct Old as (old & O & Q).
  rewrite (Unf (process m contract raw st)). unfold rebid at 1. cbv zeta.
  rewrite Hb.
  rewrite (oldBidVal_redis contract (process m contract raw st)
             (emit _ (process m contract raw st))) by reflexivity.
  now rewrite O, Q.
Qed.

Lemma feed_key_is_no_bid_key (key contract : string) :
  String.prefix "c-offer:" key = true -> key <> bidKey contract.
Proof.
  intros P ->. unfold bidKey in P. simpl in P. discriminate P.
Qed.

(** Polling a feed key twice in a row does nothing the second time, whatever
    the first poll did: a submission that failed is not retried while the
    feed value stays the same. *)
Theorem polling_again_does_nothing (m : Market) (key : string) (st : State) :
  String.prefix "c-offer:" key = true ->
  pollKey m key (pollKey m key st) = pollKey m key st.
Proof.
  intros P.
  assert (redis (pollKey m key st) !! key = redis st !! key) as R.
  { destruct (pollKey_frame m key st key) as [E|(c & v & E & _)]; [exact E|].
    now apply feed_key_is_no_bid_key in E. }
  destruct (redis st !! key) as [raw|] eqn:Hraw.
  2:{ unfold pollKey at 1. cbv zeta. now rewrite R. }
  destruct (String.eqb raw "") eqn:Hne.
  { unfold pollKey at 1. cbv zeta. now rewrite R, Hne. }
  assert (lastSeen m (pollKey m key st) !! contractOf m key = Some (trim raw))
    as L.
  { unfold pollKey. cbv zeta. rewrite Hraw, Hne.
    destruct (lastSeen m st !! contractOf m key) as [prev|] eqn:Hprev.
    - destruct (String.eqb prev (trim raw)) eqn:Q.
      + apply String.eqb_eq in Q. now rewrite Hprev, Q.
      + rewrite process_lastSeen. apply lastSeen_set.
    - rewrite process_lastSeen. apply lastSeen_set. }
  unfold pollKey at 1. cbv zeta. rewrite R, Hne, L.
  now rewrite String.eqb_refl.
Qed.

Lemma attemptsWithinCalls_refl (st : State) : attemptsWithinCalls st st.
Proof. unfold attemptsWithinCalls. lia. Qed.

Lemma attemptsWithinCalls_trans (a b c : State) :
  attemptsWithinCalls a b -> attemptsWithinCalls b c ->
  attemptsWithinCalls a c.
Proof. unfold attemptsWithinCalls. lia. Qed.

Lemma rebid_attempts (m : Market) (contract : string) (p : Q) (st : State) :
  (attempts st <= attempts (rebid m contract p st) <= S (attempts st))%nat.
Proof.
  unfold rebid. cbv zeta.
  destruct (Qle_bool _ 0);
    [|destruct (oldBidVal contract st) as [old|];
      [destruct (Qeq_bool old _)|]];
    rewrite ?submitNewBlurBid_attempts; simpl; lia.
Qed.

Lemma process_attempts (m : Market) (contract raw : string) (st : State) :
  attemptsWithinCalls st (process m contract raw st).
Proof.
  unfold attemptsWithinCalls. rewrite process_calls, length_app. simpl.
  destruct m; simpl; unfold processFromOpenSea, processFromBlur; cbv zeta;
    [destruct (osOfferEth raw) as [p|] | destruct (blurBestPrice raw) as [p|]];
    try (simpl; lia).
  - pose proof (rebid_attempts OpenSea contract p
                  (emit (CallProcess OpenSea contract raw) st)) as B.
    simpl in B. lia.
  - pose proof (rebid_attempts Blur contract p
                  (emit (CallProcess Blur contract raw) st)) as B.
    simpl in B. lia.
Qed.

Lemma pollKey_attempts (m : Market) (key : string) (st : State) :
  attemptsWithinCalls st (pollKey m key st).
Proof.
  unfold pollKey. cbv zeta.
  destruct (redis st !! key) as [raw|]; [|apply attemptsWithinCalls_refl].
  destruct (String.eqb raw ""); [apply attemptsWithinCalls_refl|].
  destruct (lastSeen m st !! contractOf m key) as [prev|];
    [destruct (String.eqb prev _); [apply attemptsWithinCalls_refl|]|];
    (eapply attemptsWithinCalls_trans; [|apply process_attempts]);
    unfold attemptsWithinCalls; destruct m; simpl; rewrite calls_app; simpl;
    rewrite app_nil_r; lia.
Qed.

(** In a polling run every submission attempt answers a change that was
    acted upon, at most one attempt per change: the attempt counter grows by
    no more than the number of processing calls made. *)
Theorem at_most_one_attempt_per_change (osKeys blurKeys : list string)
  (st : State) :
  attemptsWithinCalls st (pollTick osKeys blurKeys st).
Proof.
  assert (forall m keys s,
            attemptsWithinCalls s (forKeys (pollKey m) keys s)) as Loop.
  { intros m keys. unfold forKeys.
    induction keys as [|k keys IH]; intros s; simpl.
    - apply attemptsWithinCalls_refl.
    - eapply attemptsWithinCalls_trans; [apply pollKey_attempts|apply IH]. }
  unfold pollTick. eapply attemptsWithinCalls_trans; apply Loop.
Qed.

End WithWorld.

Lemma reprocessing_a_placed_bid_is_unchanged_witness :
  @observedPrice Scenarios.friendlyWorld OpenSea (Scenarios.osOffer "0.20")
  = Some 0.20 /\
  let st1 := @process Scenarios.friendlyWorld OpenSea "0xabc"
               (Scenarios.osOffer "0.20") (Scenarios.startState ∅) in
  @process Scenarios.friendlyWorld OpenSea "0xabc" (Scenarios.osOffer "0.20")
    st1
  = emit (LogUnchanged OpenSea "0xabc" (calculateBidWithMargin 0.20))
      (emit (CallProcess OpenSea "0xabc" (Scenarios.osOffer "0.20")) st1).
Proof.
  split; [reflexivity|].
  exact (@reprocessing_a_placed_bid_is_unchanged Scenarios.friendlyWorld
           OpenSea "0xabc" (Scenarios.osOffer "0.20") 0.20
           (Scenarios.startState ∅) eq_refl eq_refl eq_refl).
Defined.

Lemma polling_again_does_nothing_witness :
  String.prefix "c-offer:" Scenarios.blurKeyA = true /\
  @pollKey Scenarios.formatDownWorld Blur Scenarios.blurKeyA
    (@pollKey Scenarios.formatDownWorld Blur Scenarios.blurKeyA
       (Scenarios.seenBlurAt "0.19"))
  = @pollKey Scenarios.formatDownWorld Blur Scenarios.blurKeyA
      (Scenarios.seenBlurAt "0.19").
Proof.
  split; [reflexivity|].
  exact (@polling_again_does_nothing Scenarios.formatDownWorld Blur
           Scenarios.blurKeyA (Scenarios.seenBlurAt "0.19") eq_refl).
Defined.

End BidderMoreFacts.

(** ** The operation queue: net effect *)
Module QueueMoreFacts.
Import OperationQueue Sequential QueueFacts.

Section Queue.
Context {Op W : Type}.
Variable exec : Op -> W -> bool * W.

Local Abbreviation T := (@T Op W).
Local Abbreviation Event := (@Event Op).

Lemma runInOrder_snoc (ops : list Op) (o : Op) (w : W) :
  runInOrder exec (ops ++ [o]) w
  = let '(ok, w') := exec o (snd (runInOrder exec ops w)) in
    (fst (runInOrder exec ops w) ++ [(o, ok)], w').
Proof. unfold runInOrder. now rewrite fold_left_app. Qed.

Lemma processQueue_history (s : T) :
  settled (processQueue s) = settled s /\ world (processQueue s) = world s.
Proof. unfold processQueue. now destruct (bidQueue s). Qed.

Lemma step_history (w0 : W) (s : T) (e : Event) :
  (settled s, world s) = runInOrder exec (map fst (settled s)) w0 ->
  (settled (step exec s e), world (step exec s e))
  = runInOrder exec (map fst (settled (step exec s e))) w0.
Proof.
  intros K. destruct e as [o|]; simpl.
  - unfold addToQueue. cbv zeta. simpl.
    destruct (processingQueue s); [exact K|].
    destruct (processQueue_history
                {| bidQueue := bidQueue s ++ [o];
                   processingQueue := false; inFlight := inFlight s;
                   started := started s; settled := settled s;
                   errorLog := errorLog s; world := world s |}) as [-> ->].
    exact K.
  - unfold resume. destruct (inFlight s) as [|o others]; [exact K|].
    destruct (exec o (world s)) as [ok w'] eqn:X.
    match goal with |- context [processQueue ?x] =>
      destruct (processQueue_history x) as [-> ->] end.
    simpl. rewrite map_app. simpl. rewrite runInOrder_snoc, <- K. simpl.
    now rewrite X.
Qed.

Lemma run_history (w0 : W) (evs : list Event) :
  forall s,
    (settled s, world s) = runInOrder exec (map fst (settled s)) w0 ->
    (settled (run exec evs s), world (run exec evs s))
    = runInOrder exec (map fst (settled (run exec evs s))) w0.
Proof.
  induction evs as [|e evs IH]; intros s K; [exact K|].
  simpl. apply IH. now apply step_history.
Qed.

(** However the calls of [addToQueue] and the settling of operations
    interleave, once the queue has drained the outcomes recorded and the
    state left are those of running the enqueued operations one after
    another, in enqueue order. *)
Theorem queue_runs_operations_in_sequence (w : W) (evs : list Event) :
  let s := drain exec (run exec evs (init w)) in
  (settled s, world s) = runInOrder exec (enqueued evs) w.
Proof.
  cbv zeta.
  pose proof (Inv_run exec evs [] (init w) (Inv_init w)) as I. simpl in I.
  destruct (drain_steps exec _ _ _ I eq_refl) as (I' & Q & A & _).
  cbv zeta in *.
  assert (map fst (settled (drain exec (run exec evs (init w))))
          = enqueued evs) as E.
  { pose proof (inv_fifo _ _ I') as F. pose proof (inv_serial _ _ I') as S.
    unfold drain. rewrite Q, app_nil_r in F. rewrite A, app_nil_r in S.
    congruence. }
  rewrite <- E. unfold drain.
  apply run_history, run_history. reflexivity.
Qed.

End Queue.
End QueueMoreFacts.

(** ** The ledger: further properties *)
Module LedgerMoreFacts.
Import Js Services Persistence LedgerFacts JsFacts.
Local Open Scope Q_scope.

Section WithHost.
Context `{Host}.

(** On every ledger the service can reach, [getActiveBids] finds nothing:
    bids are created pending and no code makes one active. *)
Theorem no_stored_bid_is_ever_active (l : Ledger) (a : Answers) (c : string)
  (p : Platform) :
  reachable l -> getActiveBids a l c p = [].
Proof.
  intros R. apply getActiveBids_none, reachable_AllPending, R.
Qed.

(** A queued submission on a reachable ledger: when the marketplace refuses
    it or the bid does not validate, the operation fails and the ledger is
    as before; when it is accepted and valid, the bid is appended to its
    key, and the operation fails all the same if writing the file fails. *)
Theorem submission_outcomes (p : Platform) (c : string) (amt : Q) (l : Ledger) :
  reachable l ->
  let a := answers (opCount l) in
  let b := freshBid a c p amt in
  let r := exec (SubmitBid p c amt) l in
  (platformAccepts a && validate a b = false ->
   fst r = false /\ bids (snd r) = bids l) /\
  (platformAccepts a && validate a b = true ->
   fst r = fileWritten a /\ getBids (snd r) c p = getBids l c p ++ [b]).
Proof.
  intros R. cbv zeta. unfold exec. cbv zeta.
  rewrite submitOperation_adds
    by apply AllPending_step, reachable_AllPending, R.
  unfold addBid.
  destruct (platformAccepts _); [destruct (validate _ _)|];
    cbv zeta; simpl; (split; [intros E | intros E]); try discriminate E;
    try (split; reflexivity).
  split; [reflexivity|].
  unfold getBids. simpl. rewrite lookup_insert_eq.
  destruct (bids l !! c); destruct p; reflexivity.
Qed.

Lemma Platform_eqb_eq (p q : Platform) : Platform_eqb p q = true <-> p = q.
Proof. destruct p, q; simpl; split; congruence. Qed.

Lemma getBids_update (l : Ledger) (c c' : string) (p p' : Platform)
  (lst : list NftBid) :
  getBids
    (setBids l
       (<[c' := setPlatformBids
                  (default {| blurBids := []; openseaBids := [] |}
                     (bids l !! c')) p' lst]> (bids l))) c p
  = if String.eqb c c' && Platform_eqb p p' then lst else getBids l c p.
Proof.
  unfold getBids. simpl. rewrite lookup_insert.
  destruct (decide (c' = c)) as [->|N].
  - rewrite String.eqb_refl. simpl.
    destruct (bids l !! c) as [cb|]; destruct p, p'; reflexivity.
  - assert (String.eqb c c' = false) as -> by (apply String.eqb_neq; congruence).
    reflexivity.
Qed.

Lemma addBid_unfold (a : Answers) (b : NftBid) (l : Ledger) :
  snd (addBid a b l)
  = if validate a b then
      setBids l
        (<[collection b :=
             setPlatformBids
               (default {| blurBids := []; openseaBids := [] |}
                  (bids l !! collection b)) (platform b)
               (getBids l (collection b) (platform b) ++ [b])]> (bids l))
    else l.
Proof.
  unfold addBid, getBids. destruct (validate a b); [|reflexivity].
  cbv zeta. simpl. destruct (bids l !! collection b); destruct (platform b);
    reflexivity.
Qed.

Lemma removeBid_unfold (a : Answers) (c : string) (p : Platform) (n : string)
  (l : Ledger) :
  removeBid a c p n l
  = match bids l !! c, findIndex n (getBids l c p) with
    | Some _, Some index =>
        (fileWritten a,
         setBids l
           (<[c := setPlatformBids
                     (default {| blurBids := []; openseaBids := [] |}
                        (bids l !! c)) p
                     (delete index (getBids l c p))]> (bids l)))
    | _, _ => (false, l)
    end.
Proof.
  unfold removeBid, getBids. destruct (bids l !! c) as [cb|]; [|reflexivity].
  simpl. destruct (findIndex n (platformBids cb p)); reflexivity.
Qed.




Lemma filter_filter_implied (A : Type) (f g : A -> bool) (l : list A) :
  (forall x, f x = true -> g x = true) ->
  List.filter f (List.filter g l) = List.filter f l.
Proof.
  intros I. induction l as [|x l IH]; [reflexivity|]. simpl.
  destruct (g x) eqn:G; simpl.
  - now rewrite IH.
  - destruct (f x) eqn:F; [|exact IH]. apply I in F. congruence.
Qed.

Lemma keepBid_later (t t' : Z) (b : NftBid) :
  (t <= t')%Z -> keepBid t' b = true -> keepBid t b = true.
Proof.
  unfold keepBid. intros L K. apply andb_prop in K. destruct K as [K ->].
  apply Z.ltb_lt in K. rewrite andb_true_r. apply Z.ltb_lt. lia.
Qed.

(** [cleanupExpiredBids] at time [t] leaves only bids that expire after [t]
    and are not cancelled, all of them bids that were stored; cleaning again
    at a later time [t'] gives what one clean-up at [t'] gives, so a second
    clean-up at the same time changes nothing. *)
Theorem cleanup_keeps_unexpired_bids (t t' : Z) (l : Ledger) :
  (forall c p b,
     In b (getBids (cleanupExpiredBids t l) c p) ->
     (t < expirationTime b)%Z /\ status b <> cancelled
     /\ In b (getBids l c p)) /\
  ((t <= t')%Z ->
   cleanupExpiredBids t' (cleanupExpiredBids t l) = cleanupExpiredBids t' l) /\
  cleanupExpiredBids t (cleanupExpiredBids t l) = cleanupExpiredBids t l.
Proof.
  assert (forall u u', (u <= u')%Z ->
            cleanupExpiredBids u' (cleanupExpiredBids u l)
            = cleanupExpiredBids u' l) as C.
  { intros u u' L. unfold cleanupExpiredBids, setBids. simpl. f_equal.
    rewrite <- map_fmap_compose. apply map_fmap_ext. intros c cb _. simpl.
    now rewrite !filter_filter_implied by (intros; now apply (keepBid_later u u')). }
  split; [|split; [apply C|apply C; lia]].
  intros c p b. unfold getBids, cleanupExpiredBids. simpl.
  rewrite lookup_fmap. destruct (bids l !! c) as [cb|]; simpl; [|easy].
  destruct p; simpl; intros I; apply filter_In in I; destruct I as [I K];
    unfold keepBid in K; apply andb_prop in K; destruct K as [K1 K2];
    apply Z.ltb_lt in K1; (split; [exact K1|split; [|exact I]]);
    intros S; rewrite S in K2; discriminate K2.
Qed.

Lemma findIndex_app_new (n : string) (b : NftBid) (old : list NftBid) :
  findIndex n old = None -> nonce b = n ->
  findIndex n (old ++ [b]) = Some (length old).
Proof.
  intros N E. induction old as [|x old IH]; simpl in *.
  - now rewrite E, String.eqb_refl.
  - destruct (String.eqb (nonce x) n); [discriminate N|].
    destruct (findIndex n old); [discriminate N|]. now rewrite IH.
Qed.

Lemma delete_last (A : Type) (old : list A) (b : A) :
  delete (length old) (old ++ [b]) = old.
Proof. induction old as [|x old IH]; simpl; [reflexivity|now rewrite IH]. Qed.

Lemma exec_submit_accepted (p : Platform) (c : string) (amt : Q)
  (l : Ledger) :
  reachable l ->
  platformAccepts (answers (opCount l)) = true ->
  validate (answers (opCount l))
    (freshBid (answers (opCount l)) c p amt) = true ->
  let l0 := {| bids := bids l; opCount := S (opCount l) |} in
  snd (exec (SubmitBid p c amt) l)
  = setBids l0
      (<[c := setPlatformBids
                (default {| blurBids := []; openseaBids := [] |}
                   (bids l0 !! c)) p
                (getBids l0 c p
                   ++ [freshBid (answers (opCount l)) c p amt])]> (bids l0)).
Proof.
  intros R Acc V l0. unfold exec. cbv zeta. fold l0.
  rewrite submitOperation_adds
    by apply AllPending_step, reachable_AllPending, R.
  rewrite Acc, addBid_unfold, V. reflexivity.
Qed.

(** Submitting and then cancelling with the nonce the new bid was given
    restores the bids listed under every key, provided the marketplace
    accepted the bid, it validated, and no bid stored under the key already
    had that nonce; the cancel operation then succeeds if its file write
    does. *)
Theorem cancel_undoes_submit (p : Platform) (c : string) (amt : Q)
  (l : Ledger) :
  reachable l ->
  let a := answers (opCount l) in
  let b := freshBid a c p amt in
  platformAccepts a = true ->
  validate a b = true ->
  findIndex (nonce b) (getBids l c p) = None ->
  let l1 := snd (exec (SubmitBid p c amt) l) in
  let r := exec (CancelBid p c (nonce b)) l1 in
  sameBids l (snd r) /\
  fst r = fileWritten (answers (S (opCount l))).
Proof.
  intros R a b Acc V N. cbv zeta.
  rewrite (exec_submit_accepted p c amt l R Acc V). cbv zeta.
  fold a b.
  set (l0 := {| bids := bids l; opCount := S (opCount l) |}).
  set (old := getBids l0 c p).
  set (cb1 := setPlatformBids
                (default {| blurBids := []; openseaBids := [] |}
                   (bids l0 !! c)) p (old ++ [b])).
  set (l1 := setBids l0 (<[c := cb1]> (bids l0))).
  assert (forall c0 p0, getBids l1 c0 p0
            = if String.eqb c0 c && Platform_eqb p0 p
              then old ++ [b] else getBids l0 c0 p0) as G1
      by (intros; apply (getBids_update l0)).
  unfold exec. cbv zeta. unfold cancelOperation. rewrite removeBid_unfold.
  set (l2 := {| bids := bids l1; opCount := S (opCount l1) |}).
  assert (bids l2 !! c = Some cb1) as E2 by apply lookup_insert_eq.
  assert (getBids l2 c p = old ++ [b]) as Gc.
  { change (getBids l2 c p) with (getBids l1 c p).
    rewrite G1, String.eqb_refl.
    now rewrite (proj2 (Platform_eqb_eq p p) eq_refl). }
  rewrite Gc.
  rewrite (findIndex_app_new (nonce b) b old N eq_refl).
  rewrite delete_last.
  pose proof (fun c0 p0 => getBids_update l2 c0 c p0 p old) as U.
  rewrite E2 in *. cbn [fst snd]. split; [|reflexivity].
  intros c0 p0. rewrite U.
  change (getBids l2 c0 p0) with (getBids l1 c0 p0). rewrite G1.
  destruct (String.eqb c0 c && Platform_eqb p0 p) eqn:Q; [|reflexivity].
  apply andb_prop in Q. destruct Q as [Qc Q]. apply Platform_eqb_eq in Q.
  apply String.eqb_eq in Qc. now subst.
Qed.

(** Saving the ledger and loading it back keeps, for every stored bid, its
    collection, platform, amount, token and signature, its expiration time
    unless that is 0 and its nonce unless that is empty; the status comes
    back as pending whatever it was, and the creation time is the time of
    loading. *)
Theorem reloading_resets_status (a : Answers) (l : Ledger) (c : string)
  (p : Platform) :
  Forall2 (reloadedAs a) (getBids l c p)
    (getBids (loadBids a (saveBids l)) c p).
Proof.
  unfold getBids, loadBids, saveBids. simpl. rewrite !lookup_fmap.
  destruct (bids l !! c) as [cb|]; simpl; [|constructor].
  assert (forall bs, Forall2 (reloadedAs a) bs (map (fromJSON a) (map toJSON bs)))
    as F.
  { induction bs as [|b bs IH]; simpl; constructor; [|exact IH].
    unfold reloadedAs, fromJSON, newNftBid, toJSON. simpl.
    repeat split; try reflexivity.
    - intros N. destruct (expirationTime b =? 0)%Z eqn:Z; [|reflexivity].
      apply Z.eqb_eq in Z. contradiction.
    - intros N. destruct (String.eqb (nonce b) "") eqn:Z; [|reflexivity].
      apply String.eqb_eq in Z. contradiction. }
  destruct p; apply F.
Qed.

Lemma getBids_cleanup (t : Z) (l : Ledger) (c : string) (p : Platform) :
  getBids (cleanupExpiredBids t l) c p
  = List.filter (keepBid t) (getBids l c p).
Proof.
  unfold getBids, cleanupExpiredBids. simpl. rewrite lookup_fmap.
  destruct (bids l !! c) as [cb|]; simpl; [|reflexivity].
  now destruct p.
Qed.

(** A bid stored by a successful submission expires a day after it was
    made: the clean-up at second [t] keeps it exactly when [t] is less than
    a day after the second of the submission. *)
Theorem new_bid_is_kept_for_a_day (p : Platform) (c : string) (amt : Q)
  (l : Ledger) (t : Z) :
  reachable l ->
  let a := answers (opCount l) in
  let b := freshBid a c p amt in
  platformAccepts a = true ->
  validate a b = true ->
  let l1 := snd (exec (SubmitBid p c amt) l) in
  In b (getBids (cleanupExpiredBids t l1) c p)
  <-> (t < seconds (now a) + 86400)%Z.
Proof.
  intros R a b Acc V. cbv zeta.
  rewrite (exec_submit_accepted p c amt l R Acc V). cbv zeta. fold a b.
  rewrite getBids_cleanup, getBids_update, String.eqb_refl.
  rewrite (proj2 (Platform_eqb_eq p p) eq_refl). simpl.
  rewrite List.filter_In. unfold keepBid. simpl.
  rewrite andb_true_r, Z.ltb_lt. split; [intros [_ L]; exact L|].
  intros L. split; [|exact L]. apply in_or_app. right. now left.
Qed.

End WithHost.

Lemma no_stored_bid_is_ever_active_witness :
  @getActiveBids
    (@answers Scenarios.friendlyHost 1%nat)
    (snd (@exec Scenarios.friendlyHost
            (SubmitBid blur Scenarios.collectionA 0.19)
            (@loadBids (@answers Scenarios.friendlyHost 0%nat) ∅)))
    Scenarios.collectionA blur = [].
Proof.
  exact (@no_stored_bid_is_ever_active Scenarios.friendlyHost _ _ _ _
           (@reach_exec Scenarios.friendlyHost _ _
              (@reach_load Scenarios.friendlyHost _ ∅))).
Defined.

Lemma submission_outcomes_witness :
  let l := @loadBids (@answers Scenarios.friendlyHost 0%nat) ∅ in
  fst (@exec Scenarios.friendlyHost
         (SubmitBid blur Scenarios.collectionA 0.0001) l) = false /\
  bids (snd (@exec Scenarios.friendlyHost
               (SubmitBid blur Scenarios.collectionA 0.0001) l)) = bids l.
Proof.
  cbv zeta.
  exact (proj1 (@submission_outcomes Scenarios.friendlyHost blur
                  Scenarios.collectionA 0.0001 _
                  (@reach_load Scenarios.friendlyHost _ ∅)) eq_refl).
Defined.


Lemma cancel_undoes_submit_witness :
  let l := @loadBids (@answers Scenarios.friendlyHost 0%nat) ∅ in
  let l1 := snd (@exec Scenarios.friendlyHost
                   (SubmitBid blur Scenarios.collectionA 0.5) l) in
  let r := @exec Scenarios.friendlyHost
             (CancelBid blur Scenarios.collectionA "0nonce") l1 in
  sameBids l (snd r) /\ fst r = true.
Proof.
  cbv zeta.
  exact (@cancel_undoes_submit Scenarios.friendlyHost blur
           Scenarios.collectionA 0.5 _
           (@reach_load Scenarios.friendlyHost _ ∅) eq_refl eq_refl eq_refl).
Defined.

Lemma new_bid_is_kept_for_a_day_witness :
  let l := @loadBids (@answers Scenarios.friendlyHost 0%nat) ∅ in
  let b := freshBid (@answers Scenarios.friendlyHost 0%nat)
             Scenarios.collectionA blur 0.5 in
  let l1 := snd (@exec Scenarios.friendlyHost
                   (SubmitBid blur Scenarios.collectionA 0.5) l) in
  In b (getBids (cleanupExpiredBids 1750003600 l1) Scenarios.collectionA blur)
  <-> (1750003600 < 1750000000 + 86400)%Z.
Proof.
  cbv zeta.
  exact (@new_bid_is_kept_for_a_day Scenarios.friendlyHost blur
           Scenarios.collectionA 0.5 _ 1750003600
           (@reach_load Scenarios.friendlyHost _ ∅) eq_refl eq_refl).
Defined.

Lemma cleanup_keeps_unexpired_bids_witness :
  let l := snd (@exec Scenarios.friendlyHost
                  (SubmitBid blur Scenarios.collectionA 0.5)
                  (@loadBids (@answers Scenarios.friendlyHost 0%nat) ∅)) in
  cleanupExpiredBids 1750090000 (cleanupExpiredBids 1750003600 l)
  = cleanupExpiredBids 1750090000 l.
Proof.
  cbv zeta.
  exact (proj1 (proj2 (cleanup_keeps_unexpired_bids 1750003600 1750090000 _))
           (proj1 (Z.leb_le 1750003600 1750090000) eq_refl)).
Defined.

End LedgerMoreFacts.

(** ** The task manager *)
Module TaskFacts.
Import TaskManager TaskScenarios.
Local Open Scope Z_scope.

Lemma insert_head (t : Task) (l : list Task) :
  hd_error (insert t l)
  = Some (match hd_error l with
          | None => t
          | Some h => if priority t <=? priority h then t else h
          end).
Proof.
  destruct l as [|x l]; simpl; [reflexivity|].
  now destruct (priority t <=? priority x).
Qed.

Lemma sort_head_none (l : list Task) : hd_error (sort l) = None -> l = [].
Proof.
  destruct l as [|t l]; [reflexivity|]. simpl. rewrite insert_head.
  discriminate.
Qed.

Lemma mostUrgent_least (task : Task) (m : list Task) :
  mostUrgent task m ->
  forall u, In u m -> isPending u = true -> priority task <= priority u.
Proof.
  intros (before & after & -> & P & B & A) u I Pu.
  apply in_app_or in I. destruct I as [I|[<-|I]].
  - specialize (B u I Pu). lia.
  - lia.
  - now apply A.
Qed.

Lemma sort_head_mostUrgent (m : list Task) (task : Task) :
  hd_error (sort (List.filter isPending m)) = Some task -> mostUrgent task m.
Proof.
  revert task. induction m as [|x m IH]; intros task Hd; [discriminate Hd|].
  simpl in Hd. destruct (isPending x) eqn:Px.
  - simpl in Hd. rewrite insert_head in Hd.
    destruct (hd_error (sort (List.filter isPending m))) as [h|] eqn:E.
    + specialize (IH h eq_refl).
      destruct (priority x <=? priority h) eqn:L; injection Hd as <-.
      * exists [], m. split; [reflexivity|]. split; [exact Px|].
        split; [intros u []|]. intros u I Pu.
        apply Z.leb_le in L.
        pose proof (mostUrgent_least h m IH u I Pu). lia.
      * apply Z.leb_gt in L.
        destruct IH as (before & after & -> & P & B & A).
        exists (x :: before), after. split; [reflexivity|].
        split; [exact P|]. split; [|exact A].
        intros u [<-|I] Pu; [lia|now apply B].
    + injection Hd as <-. apply sort_head_none in E.
      exists [], m. split; [reflexivity|]. split; [exact Px|].
      split; [intros u []|]. intros u I Pu.
      assert (In u (List.filter isPending m)) as F
          by (apply List.filter_In; now split).
      rewrite E in F. destruct F.
  - destruct (IH task Hd) as (before & after & -> & P & B & A).
    exists (x :: before), after. split; [reflexivity|].
    split; [exact P|]. split; [|exact A].
    intros u [<-|I] Pu; [congruence|now apply B].
Qed.

Lemma processTasks_cases (s : T) :
  current s = None ->
  (getPendingTasks s = [] /\ processTasks s = s) \/
  (exists task,
     mostUrgent task (tasks s) /\ processTasks s = executeTask task s).
Proof.
  intros C. unfold processTasks. rewrite C.
  destruct (sort (getPendingTasks s)) as [|task rest] eqn:E.
  - left. split; [|reflexivity]. apply sort_head_none. now rewrite E.
  - right. exists task. split; [|reflexivity].
    apply sort_head_mostUrgent. unfold getPendingTasks in E. now rewrite E.
Qed.

(** The loop of [processTasks], when it is not waiting for a handler: with
    no pending task it changes nothing; otherwise the task it executes is
    the pending task with the smallest priority number, and among those the
    one that entered the map first. *)
Theorem next_task_is_most_urgent_and_earliest (s : T) :
  current s = None ->
  (getPendingTasks s = [] /\ processTasks s = s) \/
  (exists task,
     mostUrgent task (tasks s) /\ processTasks s = executeTask task s).
Proof. exact (processTasks_cases s). Qed.

(** *** Keys of the map *)

Lemma update_ids (k : Z) (f : Task -> Task) (m : list Task) :
  (forall x, id (f x) = id x) -> ids (update k f m) = ids m.
Proof.
  intros F. unfold ids, update. rewrite map_map. apply map_ext.
  intros x. destruct (id x =? k); [apply F|reflexivity].
Qed.

Lemma Map_set_In_ids (t : Task) (m : list Task) (k : Z) :
  In k (ids (Map_set t m)) -> k = id t \/ In k (ids m).
Proof.
  induction m as [|x m IH]; simpl.
  - intros [<-|[]]. now left.
  - destruct (id x =? id t) eqn:E; simpl.
    + intros [<-|I]; [now left|now right; right].
    + intros [<-|I]; [now right; left|].
      destruct (IH I); [now left|now right; right].
Qed.

Lemma Map_set_NoDup (t : Task) (m : list Task) :
  List.NoDup (ids m) -> List.NoDup (ids (Map_set t m)).
Proof.
  induction m as [|x m IH]; simpl; intros N.
  - constructor; [intros []|constructor].
  - apply List.NoDup_cons_iff in N. destruct N as [N1 N2].
    destruct (id x =? id t) eqn:E; simpl.
    + apply Z.eqb_eq in E. apply List.NoDup_cons_iff. split; [|exact N2].
      now rewrite <- E.
    + apply Z.eqb_neq in E. apply List.NoDup_cons_iff. split; [|now apply IH].
      intros I. apply Map_set_In_ids in I. destruct I as [I|I];
        [congruence|contradiction].
Qed.

Lemma Map_delete_NoDup (k : Z) (m : list Task) :
  List.NoDup (ids m) -> List.NoDup (ids (Map_delete k m)).
Proof.
  induction m as [|x m IH]; simpl; intros N; [constructor|].
  apply List.NoDup_cons_iff in N. destruct N as [N1 N2].
  destruct (negb (id x =? k)); simpl; [|now apply IH].
  apply List.NoDup_cons_iff. split; [|now apply IH].
  intros I. apply N1. unfold ids in *. apply in_map_iff in I.
  destruct I as (y & Ey & I). apply List.filter_In in I.
  apply in_map_iff. exists y. now split.
Qed.

Lemma update_absent (k : Z) (f : Task -> Task) (m : list Task) :
  ~ In k (ids m) -> update k f m = m.
Proof.
  induction m as [|x m IH]; simpl; intros N; [reflexivity|].
  destruct (id x =? k) eqn:E.
  - apply Z.eqb_eq in E. exfalso. apply N. now left.
  - f_equal. apply IH. intros I. apply N. now right.
Qed.

Lemma Map_delete_absent (k : Z) (m : list Task) :
  ~ In k (ids m) -> Map_delete k m = m.
Proof.
  induction m as [|x m IH]; simpl; intros N; [reflexivity|].
  destruct (id x =? k) eqn:E; simpl.
  - apply Z.eqb_eq in E. exfalso. apply N. now left.
  - f_equal. apply IH. intros I. apply N. now right.
Qed.

Lemma NoDup_split (before after : list Task) (t : Task) :
  List.NoDup (ids (before ++ t :: after)) ->
  ~ In (id t) (ids before) /\ ~ In (id t) (ids after).
Proof.
  unfold ids. rewrite List.map_app. simpl. intros N.
  apply List.NoDup_remove_2 in N. split; intros I; apply N, in_or_app;
    [now left|now right].
Qed.

Lemma update_at (before after : list Task) (t : Task) (f : Task -> Task) :
  List.NoDup (ids (before ++ t :: after)) ->
  update (id t) f (before ++ t :: after) = before ++ f t :: after.
Proof.
  intros N. destruct (NoDup_split _ _ _ N) as [B A].
  unfold update. rewrite List.map_app. simpl. rewrite Z.eqb_refl.
  fold (update (id t) f before). fold (update (id t) f after).
  now rewrite !update_absent.
Qed.

Lemma Map_delete_at (before after : list Task) (t t' : Task) :
  ~ In (id t) (ids before) -> ~ In (id t) (ids after) -> id t' = id t ->
  Map_delete (id t) (before ++ t' :: after) = before ++ after.
Proof.
  intros B A E. unfold Map_delete. rewrite List.filter_app. simpl.
  rewrite E, Z.eqb_refl. simpl.
  fold (Map_delete (id t) before). fold (Map_delete (id t) after).
  now rewrite !Map_delete_absent.
Qed.

Lemma pendingCount_app (a b : list Task) :
  pendingCount (a ++ b) = (pendingCount a + pendingCount b)%nat.
Proof. unfold pendingCount. now rewrite List.filter_app, List.length_app. Qed.

Lemma Map_set_pendingCount (t : Task) (m : list Task) :
  (pendingCount (Map_set t m) <= S (pendingCount m))%nat.
Proof.
  unfold pendingCount.
  induction m as [|x m IH]; simpl.
  - destruct (isPending t); simpl; lia.
  - destruct (id x =? id t); simpl.
    + destruct (isPending t), (isPending x); simpl; lia.
    + destruct (isPending x); simpl; lia.
Qed.

Lemma Map_delete_pendingCount (k : Z) (m : list Task) :
  (pendingCount (Map_delete k m) <= pendingCount m)%nat.
Proof.
  unfold pendingCount.
  induction m as [|x m IH]; simpl; [lia|].
  destruct (negb (id x =? k)); simpl; destruct (isPending x); simpl; lia.
Qed.

(** The tasks of a map after [executeTask] on its most urgent task. *)
Lemma executeTask_tasks (task : Task) (s : T) (before after : list Task) :
  tasks s = before ++ task :: after ->
  List.NoDup (ids (tasks s)) ->
  tasks (executeTask task s)
  = before
    ++ (if handled (type task) then with_status task running
        else failedWith (unknownType (type task)) task) :: after.
Proof.
  intros E N. unfold executeTask. cbv zeta. rewrite E in *.
  rewrite (update_at before after task _ N).
  destruct (handled (type task)); simpl; [reflexivity|].
  assert (List.NoDup (ids (before ++ with_status task running :: after)))
    as N' by (unfold ids in *; rewrite List.map_app in *; exact N).
  exact (update_at before after (with_status task running) _ N').
Qed.

(** *** Invariant of the runs *)

Lemma started_app (a b : list Emitted) :
  started (a ++ b) = (started a + started b)%nat.
Proof. unfold started. now rewrite List.filter_app, List.length_app. Qed.

Lemma added_app (a b : list Emitted) :
  added (a ++ b) = (added a + added b)%nat.
Proof. unfold added. now rewrite List.filter_app, List.length_app. Qed.

Lemma executeTask_ids (task : Task) (s : T) :
  ids (tasks (executeTask task s)) = ids (tasks s).
Proof.
  unfold executeTask. cbv zeta.
  destruct (handled (type task)); simpl; now rewrite !update_ids by easy.
Qed.

Lemma step_Inv (e : Event) (s : T) : Inv s -> Inv (step e s).
Proof.
  intros [K C]. destruct e as [idClock createdClock ty d prio| |]; simpl.
  - split; simpl.
    + now apply Map_set_NoDup.
    + rewrite started_app, added_app. simpl.
      pose proof (Map_set_pendingCount
                    {| id := idClock; type := ty; data := d;
                       priority := default RECALCULATE prio;
                       status := pending; createdAt := createdClock;
                       error := None |} (tasks s)).
      unfold started at 2, added at 2. simpl. lia.
  - unfold processTasks. destruct (current s) eqn:Cu; [now split|].
    destruct (sort (getPendingTasks s)) as [|task rest] eqn:E; [now split|].
    assert (mostUrgent task (tasks s)) as M
        by (apply sort_head_mostUrgent; unfold getPendingTasks in E;
            now rewrite E).
    destruct M as (before & after & Em & P & _).
    split.
    + now rewrite executeTask_ids.
    + rewrite (executeTask_tasks task s before after Em K).
      rewrite Em in C. rewrite pendingCount_app in *.
      unfold pendingCount in *. simpl in *. rewrite P in C. simpl in C.
      unfold executeTask. cbv zeta.
      destruct (handled (type task)); simpl; rewrite started_app, added_app;
        unfold started at 2, added at 2; simpl; lia.
  - unfold resume. destruct (current s) as [t|]; [|now split].
    split; simpl.
    + now apply Map_delete_NoDup.
    + rewrite started_app, added_app. unfold started at 2, added at 2. simpl.
      pose proof (Map_delete_pendingCount (id t) (tasks s)). lia.
Qed.

Lemma run_Inv (evs : list Event) (s : T) : Inv s -> Inv (run evs s).
Proof.
  revert s. induction evs as [|e evs IH]; intros s I; [exact I|].
  simpl. apply IH, step_Inv, I.
Qed.

(** However calls of [addTask], turns of the loop and returns of handlers
    follow one another from the start, the tasks started and the tasks
    still pending are together at most the tasks added: no task is started
    twice, and a failed task is not tried again. *)
Theorem tasks_start_at_most_once (evs : list Event) :
  let s := run evs init in
  (started (emitted s) + length (getPendingTasks s)
   <= added (emitted s))%nat.
Proof.
  cbv zeta. apply (run_Inv evs init). split; simpl; [constructor|].
  unfold started, added, pendingCount. simpl. lia.
Qed.

(** *** Task ids are clock readings *)

Lemma Map_set_twice (t t' : Task) (m : list Task) :
  id t = id t' -> Map_set t' (Map_set t m) = Map_set t' m.
Proof.
  intros E. induction m as [|x m IH]; simpl.
  - now rewrite E, Z.eqb_refl.
  - destruct (id x =? id t) eqn:X; simpl.
    + rewrite E in X. rewrite X. now rewrite E, Z.eqb_refl.
    + rewrite E in X. rewrite X. now rewrite IH.
Qed.

Lemma Map_delete_gone (k : Z) (m : list Task) :
  ~ In k (ids (Map_delete k m)).
Proof.
  unfold ids. intros I. apply in_map_iff in I. destruct I as (x & E & I).
  apply List.filter_In in I. destruct I as [_ I]. subst k.
  now rewrite Z.eqb_refl in I.
Qed.

(** Two tasks added within the same millisecond have the same id: the
    second takes the place of the first in the map, which is then as if
    the first had never been added.  And a task added with the id of the
    task whose handler is running is deleted when that handler returns,
    without having been started. *)
Theorem same_millisecond_tasks_collide (s : T) (k c1 c2 : Z)
  (ty1 d1 ty2 d2 : string) (p1 p2 : option Z) :
  tasks (addTask k c2 ty2 d2 p2 (addTask k c1 ty1 d1 p1 s))
  = tasks (addTask k c2 ty2 d2 p2 s) /\
  (forall t, current s = Some t -> id t = k ->
     let s' := resume (addTask k c1 ty1 d1 p1 s) in
     getTaskStatus k s' = None /\
     started (emitted s') = started (emitted s)).
Proof.
  split.
  - unfold addTask. simpl. now apply Map_set_twice.
  - intros t C E. cbv zeta. unfold resume. simpl. rewrite C. simpl.
    split.
    + unfold getTaskStatus. simpl.
      destruct (find _ _) as [x|] eqn:F; [|reflexivity].
      apply find_some in F. destruct F as [F1 F2]. apply Z.eqb_eq in F2.
      exfalso. apply (Map_delete_gone (id t) (Map_set
        {| id := k; type := ty1; data := d1;
           priority := default RECALCULATE p1; status := pending;
           createdAt := c1; error := None |} (tasks s))).
      unfold ids. apply in_map_iff. exists x. split; [congruence|exact F1].
    + rewrite !started_app. unfold started at 2 3. simpl. lia.
Qed.

(** *** Draining the map *)

Lemma settle_app (a b : list Task) : settle (a ++ b) = settle a ++ settle b.
Proof. unfold settle. now rewrite List.filter_app, List.map_app. Qed.

Lemma settle_none_pending (m : list Task) :
  List.filter isPending m = [] -> settle m = m.
Proof.
  unfold settle. induction m as [|x m IH]; simpl; [reflexivity|].
  destruct (isPending x) eqn:P; [discriminate|]. simpl. rewrite P.
  intros E. now rewrite IH.
Qed.

Lemma turn_spec (s : T) :
  List.NoDup (ids (tasks s)) -> current s = None ->
  getPendingTasks s <> [] ->
  List.NoDup (ids (tasks (turn s))) /\ current (turn s) = None /\
  settle (tasks (turn s)) = settle (tasks s) /\
  S (length (getPendingTasks (turn s))) = length (getPendingTasks s).
Proof.
  intros K C NE. unfold turn.
  destruct (processTasks_cases s C) as [[E _]|(task & M & ->)];
    [contradiction|].
  destruct M as (before & after & Em & P & _).
  pose proof (executeTask_tasks task s before after Em K) as Et.
  assert (List.NoDup (ids (before ++ task :: after))) as K'
      by now rewrite <- Em.
  destruct (NoDup_split _ _ _ K') as [B A].
  unfold getPendingTasks. fold (pendingCount (tasks s)). rewrite Em.
  unfold resume, executeTask in *. cbv zeta in *.
  destruct (handled (type task)) eqn:Hd; simpl in *.
  - rewrite Et.
    rewrite (Map_delete_at before after task (with_status task running) B A
               eq_refl).
    split; [|split; [reflexivity|split]].
    + unfold ids in *. rewrite List.map_app in *. simpl in K'.
      now apply List.NoDup_remove_1 in K'.
    + rewrite !settle_app. f_equal. unfold settle. simpl.
      now rewrite P, Hd.
    + fold (pendingCount (before ++ after)).
      rewrite !pendingCount_app. unfold pendingCount. simpl. rewrite P.
      simpl. lia.
  - rewrite Et.
    split; [|split; [reflexivity|split]].
    + unfold ids in *. rewrite List.map_app in *. exact K'.
    + rewrite !settle_app. f_equal. unfold settle. simpl.
      rewrite P, Hd. simpl. now rewrite P.
    + fold (pendingCount (before ++ failedWith (unknownType (type task)) task
                            :: after)).
      rewrite !pendingCount_app. unfold pendingCount. simpl. rewrite P.
      simpl. lia.
Qed.

(** With no task added meanwhile, as many turns of the loop as there are
    pending tasks leave none pending: the map then holds what it held
    without the pending tasks that had a handler, and with those whose type
    has none marked failed; the tasks that were not pending stay as they
    were, the failed ones for good. *)
Theorem pending_tasks_drain (s : T) :
  List.NoDup (ids (tasks s)) -> current s = None ->
  let s' := Nat.iter (length (getPendingTasks s)) turn s in
  tasks s' = settle (tasks s) /\ getPendingTasks s' = [] /\
  current s' = None.
Proof.
  cbv zeta. remember (length (getPendingTasks s)) as n eqn:En.
  revert s En. induction n as [|n IH]; intros s En K C.
  - simpl. symmetry in En. apply length_zero_iff_nil in En.
    split; [|now split]. symmetry. now apply settle_none_pending.
  - assert (getPendingTasks s <> []) as NE
        by (intros E; rewrite E in En; discriminate En).
    destruct (turn_spec s K C NE) as (K' & C' & S' & L').
    rewrite Nat.iter_succ_r.
    rewrite <- S'. apply IH; [lia|exact K'|exact C'].
Qed.

Lemma next_task_is_most_urgent_and_earliest_witness :
  (getPendingTasks twoTasks = [] /\ processTasks twoTasks = twoTasks) \/
  (exists task,
     mostUrgent task (tasks twoTasks) /\
     processTasks twoTasks = executeTask task twoTasks).
Proof.
  exact (next_task_is_most_urgent_and_earliest twoTasks eq_refl).
Defined.

Lemma pending_tasks_drain_witness :
  let s' := Nat.iter 2 turn twoTasks in
  tasks s' = settle (tasks twoTasks) /\ getPendingTasks s' = [] /\
  current s' = None.
Proof.
  cbv zeta.
  refine (pending_tasks_drain twoTasks _ eq_refl).
  repeat constructor; simpl; intros I; repeat destruct I as [I|I];
    try discriminate I; exact I.
Defined.

Lemma same_millisecond_tasks_collide_witness :
  let s := processTasks twoTasks in
  let s' := resume (addTask 1750000000001 1750000000002 "CANCEL_BID" "{}"
                      None s) in
  getTaskStatus 1750000000001 s' = None /\
  started (emitted s') = started (emitted s).
Proof.
  cbv zeta.
  exact (proj2 (same_millisecond_tasks_collide (processTasks twoTasks)
                  1750000000001 1750000000002 0 "CANCEL_BID" "{}" "" ""
                  None None) _ eq_refl eq_refl).
Defined.

End TaskFacts.

(** ** The map of active bids of unnamed/part_000 *)
Module ActiveBidsFacts.
Import ActiveBids.

Lemma exec_noEmptyEntry (o : Operation) (m : T) :
  noEmptyEntry m -> noEmptyEntry (exec o m).
Proof.
  intros I. destruct o as [p c a|p c]; simpl.
  - unfold submitOperation. cbv zeta. intros c' cur.
    destruct (decide (c = c')) as [->|N].
    + rewrite lookup_insert_eq. intros [= <-]. apply insert_non_empty.
    + rewrite lookup_insert_ne by exact N. apply I.
  - unfold cancelOperation. destruct (m !! c) as [cur0|] eqn:E; [|exact I].
    cbv zeta. destruct (decide (size (delete p cur0) = 0%nat)) as [Z|Z].
    + intros c' cur. destruct (decide (c = c')) as [->|N].
      * now rewrite lookup_delete_eq.
      * rewrite lookup_delete_ne by exact N. apply I.
    + intros c' cur. destruct (decide (c = c')) as [->|N].
      * rewrite lookup_insert_eq. intros [= <-] Em. apply Z.
        rewrite Em. apply map_size_empty.
      * rewrite lookup_insert_ne by exact N. apply I.
Qed.

Lemma replay_snoc (ops : list Operation) (o : Operation) :
  replay (ops ++ [o]) = exec o (replay ops).
Proof. unfold replay. now rewrite fold_left_app. Qed.

Lemma replay_noEmptyEntry (ops : list Operation) : noEmptyEntry (replay ops).
Proof.
  induction ops as [|o ops IH] using rev_ind.
  - intros c cur. unfold replay. simpl. now rewrite lookup_empty.
  - rewrite replay_snoc. now apply exec_noEmptyEntry.
Qed.

Lemma key_eqb (c c' p p' : string) :
  String.eqb c' c && String.eqb p' p = true <-> c' = c /\ p' = p.
Proof.
  rewrite andb_true_iff, !String.eqb_eq. reflexivity.
Qed.

Lemma activeBid_submit (p c : string) (a : Q) (m : T) (c' p' : string) :
  activeBid (submitOperation p c a m) c' p'
  = if String.eqb c c' && String.eqb p p' then Some a else activeBid m c' p'.
Proof.
  unfold activeBid, submitOperation. cbv zeta.
  destruct (decide (c = c')) as [->|N].
  - rewrite lookup_insert_eq, String.eqb_refl. simpl.
    destruct (decide (p = p')) as [->|N].
    + now rewrite lookup_insert_eq, String.eqb_refl.
    + rewrite lookup_insert_ne by exact N.
      apply String.eqb_neq in N. rewrite N.
      destruct (m !! c'); [reflexivity|]. simpl. apply lookup_empty.
  - rewrite lookup_insert_ne by exact N.
    apply String.eqb_neq in N. now rewrite N.
Qed.

Lemma activeBid_cancel (p c : string) (m : T) (c' p' : string) :
  activeBid (cancelOperation p c m) c' p'
  = if String.eqb c c' && String.eqb p p' then None else activeBid m c' p'.
Proof.
  unfold activeBid, cancelOperation.
  destruct (decide (c = c')) as [->|N].
  - rewrite String.eqb_refl. simpl.
    destruct (m !! c') as [cur|] eqn:E; simpl.
    + cbv zeta. destruct (decide (size (delete p cur) = 0%nat)) as [Z|Z].
      * rewrite lookup_delete_eq. simpl. apply map_size_empty_iff in Z.
        destruct (decide (p = p')) as [->|Np].
        -- now rewrite String.eqb_refl.
        -- apply String.eqb_neq in Np as Np'. rewrite Np'.
           rewrite <- (lookup_delete_ne cur p p') by exact Np.
           rewrite Z. symmetry. apply lookup_empty.
      * rewrite lookup_insert_eq. simpl.
        destruct (decide (p = p')) as [->|Np].
        -- rewrite String.eqb_refl. apply lookup_delete_eq.
        -- apply String.eqb_neq in Np as Np'. rewrite Np'.
           now apply lookup_delete_ne.
    + rewrite E. simpl. now destruct (String.eqb p p').
  - apply String.eqb_neq in N as N'. rewrite N'. simpl.
    destruct (m !! c) as [cur|] eqn:E; [|reflexivity].
    cbv zeta. destruct (decide (size (delete p cur) = 0%nat)).
    + now rewrite lookup_delete_ne.
    + now rewrite lookup_insert_ne.
Qed.

(** After any sequence of queued submissions and cancellations, the amount
    held for a collection and platform is that of the last submission for
    them unless a cancellation for them followed it, and a collection is in
    the map exactly when it holds an amount for some platform. *)
Theorem active_bids_hold_the_last_word (ops : list Operation)
  (collection platform : string) :
  activeBid (replay ops) collection platform
  = lastWord ops collection platform /\
  (is_Some (replay ops !! collection) <->
   exists p, is_Some (activeBid (replay ops) collection p)).
Proof.
  split.
  - induction ops as [|o ops IH] using rev_ind; [reflexivity|].
    rewrite replay_snoc. unfold lastWord. rewrite fold_left_app. simpl.
    fold (lastWord ops collection platform). rewrite <- IH.
    destruct o as [p c a|p c]; simpl.
    + apply activeBid_submit.
    + apply activeBid_cancel.
  - pose proof (replay_noEmptyEntry ops collection) as I.
    unfold activeBid. destruct (replay ops !! collection) as [cur|]; simpl.
    + split; [intros _|intros _; now eexists].
      specialize (I cur eq_refl).
      apply map_choose in I. destruct I as (p & a & E). exists p.
      rewrite E. now eexists.
    + split; [intros [x E]; discriminate E|].
      intros [p [x E]]. discriminate E.
Qed.

(** Cancelling the bid just submitted puts the map back as it was, when
    nothing was held for that collection and platform before. *)
Theorem cancelling_a_new_bid_restores_the_map (ops : list Operation)
  (platform collection : string) (amount : Q) :
  activeBid (replay ops) collection platform = None ->
  exec (CancelBid platform collection)
    (exec (SubmitBid platform collection amount) (replay ops))
  = replay ops.
Proof.
  intros E. pose proof (replay_noEmptyEntry ops collection) as I.
  set (m := replay ops) in *. simpl.
  unfold cancelOperation, submitOperation. cbv zeta.
  rewrite lookup_insert_eq. unfold activeBid in E.
  destruct (m !! collection) as [cur|] eqn:Ec; simpl in *.
  - rewrite delete_insert_id by exact E.
    destruct (decide (size cur = 0%nat)) as [Z|Z].
    + apply map_size_empty_iff in Z. now destruct (I cur eq_refl).
    + rewrite insert_insert_eq. now apply insert_id.
  - rewrite delete_insert_id by apply lookup_empty.
    destruct (decide (size (∅ : gmap string Q) = 0%nat)) as [Z|Z].
    + now apply delete_insert_id.
    + now rewrite map_size_empty in Z.
Qed.

Lemma cancelling_a_new_bid_restores_the_map_witness :
  exec (CancelBid "blur" "0xabc")
    (exec (SubmitBid "blur" "0xabc" 0.19)
       (replay [SubmitBid "opensea" "0xabc" 0.2]))
  = replay [SubmitBid "opensea" "0xabc" 0.2].
Proof.
  apply (cancelling_a_new_bid_restores_the_map
           [SubmitBid "opensea" "0xabc" 0.2] "blur" "0xabc" 0.19).
  vm_compute. reflexivity.
Defined.

End ActiveBidsFacts.

(** ** The feeds and the keys the bidder reads *)
Module FeedFacts.
Import Js BlurBidder Feeds.

Lemma split_l_no_sep (sep : ascii) (cur s : list ascii) :
  forallb (fun ch => negb (Ascii.eqb ch sep)) s = true ->
  split_l sep cur s = [(rev cur ++ s)%list].
Proof.
  revert cur. induction s as [|c s IH]; intros cur F; simpl.
  - now rewrite app_nil_r.
  - simpl in F. apply andb_prop in F. destruct F as [F1 F2].
    apply negb_true_iff in F1. rewrite F1, IH by exact F2.
    simpl. now rewrite <- app_assoc.
Qed.

Lemma list_ascii_app (a b : string) :
  list_ascii_of_string (a ++ b)
  = (list_ascii_of_string a ++ list_ascii_of_string b)%list.
Proof. induction a as [|c a IH]; simpl; [reflexivity|now rewrite IH]. Qed.

(** The bidder finds in a key of either feed the contract the feed put
    there, when the contract's text has no colon: the third segment of an
    OpenSea key, the fourth of a Blur key. *)
Theorem feed_keys_name_their_contract (contract : string) :
  noColon contract = true ->
  contractOf OpenSea (osKey contract) = contract /\
  contractOf Blur (blurKey contract) = contract.
Proof.
  intros N. unfold contractOf, segment, split, osKey, blurKey.
  rewrite !list_ascii_app. simpl.
  rewrite !(split_l_no_sep ":"%char [] _ N). simpl.
  now rewrite string_of_list_ascii_of_string.
Qed.

Lemma feed_keys_name_their_contract_witness :
  contractOf OpenSea (osKey Scenarios.collectionA) = Scenarios.collectionA /\
  contractOf Blur (blurKey Scenarios.collectionA) = Scenarios.collectionA.
Proof.
  exact (feed_keys_name_their_contract Scenarios.collectionA eq_refl).
Defined.

(** The Blur feed changes at most one key per message, and only the key of
    a collection of collections.json, lower-cased, which then holds the
    best price of the message. *)
Theorem blur_feed_writes_only_listed_collections
  (toLowerCase : string -> string) (collections : list string)
  (evt : option BidLevels) (stored : bool) (redis : gmap string string)
  (key : string) :
  let redis' := onCollectionBidLevels toLowerCase collections evt stored redis in
  redis' !! key <> redis !! key ->
  exists c e,
    In c collections /\ evt = Some e /\
    key = blurKey (toLowerCase c) /\
    redis' !! key = Some (bestPrice e) /\
    forall k, k <> key -> redis' !! k = redis !! k.
Proof.
  cbv zeta. unfold onCollectionBidLevels.
  destruct evt as [e|]; [|congruence]. cbv zeta.
  destruct (decide (_ ∈ allowed toLowerCase collections)) as [A|A];
    [|congruence].
  destruct stored; [|congruence].
  set (addr := toLowerCase (default ""%string (contractAddress e))) in *.
  destruct (decide (key = blurKey addr)) as [->|N].
  - intros _. unfold allowed in A. apply elem_of_list_to_set in A.
    apply list_elem_of_In, in_map_iff in A. destruct A as (c & Ec & I).
    exists c, e. split; [exact I|]. split; [reflexivity|].
    split; [now rewrite Ec|]. split; [apply lookup_insert_eq|].
    intros k Nk. now apply lookup_insert_ne.
  - rewrite lookup_insert_ne by congruence. congruence.
Qed.

Lemma blur_feed_writes_only_listed_collections_witness :
  let redis' :=
    onCollectionBidLevels FeedScenarios.lowerAscii ["0xABC"%string]
      (Some {| contractAddress := Some "0xAbc"%string;
               bestPrice := "0.18" |}) true ∅ in
  exists c e,
    In c ["0xABC"%string] /\
    Some {| contractAddress := Some "0xAbc"%string; bestPrice := "0.18" |}
    = Some e /\
    Scenarios.blurKeyA = blurKey (FeedScenarios.lowerAscii c) /\
    redis' !! Scenarios.blurKeyA = Some (bestPrice e) /\
    forall k, k <> Scenarios.blurKeyA -> redis' !! k = (∅ : gmap string string) !! k.
Proof.
  cbv zeta.
  apply (blur_feed_writes_only_listed_collections FeedScenarios.lowerAscii
           ["0xABC"%string]
           (Some {| contractAddress := Some "0xAbc"%string;
                    bestPrice := "0.18" |}) true ∅ Scenarios.blurKeyA).
  vm_compute. discriminate.
Defined.

(** The per-NFT price of the OpenSea feed never overstates the offer: for a
    total that is not negative, the price per NFT times the number of NFTs
    is at most the total and misses it by less than one wei per NFT; with
    no NFT item in the consideration the price is the total. *)
Theorem per_nft_price_never_overstates (totalWei : Z) (itemTypes : list Z) :
  (0 <= totalWei)%Z ->
  let n := count itemTypes in
  (1 <= n /\
   n * perWei totalWei itemTypes <= totalWei
     < n * perWei totalWei itemTypes + n /\
   (Forall (fun t => t <> 4) itemTypes ->
    perWei totalWei itemTypes = totalWei))%Z.
Proof.
  intros P. cbv zeta. unfold perWei, count. cbv zeta.
  set (k := Z.of_nat (length (List.filter (fun t => (t =? 4)%Z) itemTypes))).
  assert (0 <= k)%Z as K by apply Nat2Z.is_nonneg.
  split; [destruct (0 <? k)%Z eqn:E; [apply Z.ltb_lt in E|]; lia|].
  split.
  - assert (0 < (if (0 <? k)%Z then k else 1))%Z as C
        by (destruct (0 <? k)%Z eqn:E; [apply Z.ltb_lt in E|]; lia).
    set (n := if (0 <? k)%Z then k else 1%Z) in *.
    rewrite Z.quot_div_nonneg by lia.
    pose proof (Z.mul_div_le totalWei n C).
    pose proof (Z.mul_succ_div_gt totalWei n C). lia.
  - intros F.
    assert (k = 0)%Z as ->.
    { unfold k. clear -F. induction F as [|t l Ht F IH]; [reflexivity|].
      simpl. apply Z.eqb_neq in Ht. now rewrite Ht. }
    simpl. apply Z.quot_1_r.
Qed.

Lemma per_nft_price_never_overstates_witness :
  (1 <= count [4; 4; 4; 1] /\
   count [4; 4; 4; 1] * perWei 1000000000000000000 [4; 4; 4; 1]
     <= 1000000000000000000
     < count [4; 4; 4; 1] * perWei 1000000000000000000 [4; 4; 4; 1]
       + count [4; 4; 4; 1] /\
   (Forall (fun t => t <> 4) [4; 4; 4; 1] ->
    perWei 1000000000000000000 [4; 4; 4; 1] = 1000000000000000000))%Z.
Proof.
  apply (per_nft_price_never_overstates 1000000000000000000 [4; 4; 4; 1]%Z).
  lia.
Defined.

End FeedFacts.

(** ** The amount report of old/ *)
Module LegacyFacts.
Import Js Legacy.
Local Open Scope Q_scope.




End LegacyFacts.
